(** * license.sh: dependency-graph reconciliation and license lookup

    A shallow embedding of
      - [license_sh/runners/yarn/__init__.py]   (module [Yarn] below)
      - [license_sh/runners/python/__init__.py] (module [Pypi] below)
    together with the properties of the engine that the specification
    states about them. *)

From Stdlib Require Import List String Ascii Bool Arith Lia Permutation.
Import ListNotations.
Open Scope string_scope.
Open Scope list_scope.
Set Warnings "-register-all".

(** ** Python run-time notions shared by both runners *)
Module Py.

(** Exceptions the modelled code can raise. *)
Inductive exn : Type :=
| AttributeError   (* [x.get(...)] / [x.split(...)] on a value without that attribute *)
| ValueError.      (* not enough values to unpack *)

(** Outcome of running a piece of Python code.  [OutOfFuel] is produced by
    the fuel-indexed model of the one non-structural recursion only. *)
Inductive outcome (A : Type) : Type :=
| Return (a : A)
| Raise (e : exn)
| OutOfFuel.
Arguments Return {A} a.
Arguments Raise {A} e.
Arguments OutOfFuel {A}.

Definition bind {A B : Type} (m : outcome A) (k : A -> outcome B) : outcome B :=
  match m with
  | Return a => k a
  | Raise e => Raise e
  | OutOfFuel => OutOfFuel
  end.

Notation "x <- m ;; k" := (bind m (fun x => k))
  (at level 61, m at next level, right associativity).

(** A Python [dict] with string keys: insertion-ordered, one binding per key. *)
Definition dict (A : Type) : Type := list (string * A).

Definition keys {A : Type} (d : dict A) : list string := map fst d.
Definition values {A : Type} (d : dict A) : list A := map snd d.

(** [d.get(k)]; [None] of the option is Python's [None] for a missing key. *)
Fixpoint dict_get {A : Type} (d : dict A) (k : string) : option A :=
  match d with
  | [] => None
  | (k', v) :: d' => if String.eqb k' k then Some v else dict_get d' k
  end.

(** [d[k] = v]: overwrite in place, or append a new binding. *)
Fixpoint dict_set {A : Type} (d : dict A) (k : string) (v : A) : dict A :=
  match d with
  | [] => [(k, v)]
  | (k', v') :: d' =>
      if String.eqb k' k then (k', v) :: d' else (k', v') :: dict_set d' k v
  end.

(** A well-formed dict never binds a key twice. *)
Definition dict_wf {A : Type} (d : dict A) : Prop := NoDup (keys d).

(** [s.split(sep)] for a one-character separator. *)
Fixpoint split (sep : ascii) (s : string) : list string :=
  match s with
  | EmptyString => [EmptyString]
  | String c s' =>
      if Ascii.eqb c sep then EmptyString :: split sep s'
      else match split sep s' with
           | [] => [String c EmptyString]
           | h :: t => String c h :: t
           end
  end.

(** [c in s] for a one-character [c]. *)
Fixpoint occurs (c : ascii) (s : string) : bool :=
  match s with
  | EmptyString => false
  | String c' s' => Ascii.eqb c' c || occurs c s'
  end.

(** [s.startswith(c)] for a one-character prefix. *)
Definition startswith (c : ascii) (s : string) : bool :=
  match s with
  | EmptyString => false
  | String c' _ => Ascii.eqb c' c
  end.

(** [str(x)] inside an f-string, for a value that is a [str] or [None]. *)
Definition fmt (o : option string) : string :=
  match o with
  | Some s => s
  | None => "None"
  end.

(** The f-string [f'{name}@{version}'] once both parts are rendered. *)
Definition at_key (name version : string) : string :=
  (name ++ "@" ++ version)%string.

(** Truthiness of a value that is a [str] or [None]. *)
Definition truthy (o : option string) : bool :=
  match o with
  | Some EmptyString => false
  | Some _ => true
  | None => false
  end.

(** [x in xs] on a list of strings. *)
Definition py_in (x : string) (xs : list string) : bool :=
  existsb (String.eqb x) xs.

(** [xs[:-1]] *)
Definition drop_last {A : Type} (xs : list A) : list A := removelast xs.

(** A [for] loop whose body contributes zero or more items to a result
    list and may raise; the first exception ends the loop. *)
Fixpoint for_each {A B : Type} (body : A -> outcome (list B)) (xs : list A)
  : outcome (list B) :=
  match xs with
  | [] => Return []
  | x :: xs' =>
      here <- body x ;;
      rest <- for_each body xs' ;;
      Return (here ++ rest)
  end.

End Py.
Import Py.

(** ** The yarn runner: [license_sh/runners/yarn/__init__.py] *)
Module Yarn.

(** *** Inputs delivered by the external collaborators *)

(** One record of the parsed [yarn.lock]: [{"version": ...}], the field
    possibly absent. *)
Record lock_entry : Type := LockEntry { le_version : option string }.

(** Parsed [yarn.lock]: [{"object": {key: record}}], the field possibly absent. *)
Record lock_json : Type := LockJson { lj_object : option (dict lock_entry) }.

(** One record of [yarn list --json]: [{"name": "pkg@range", "children": [...]}].
    An absent [children] reads as the empty list through [.get('children', [])]. *)
Inductive listing : Type :=
| Listing (name : option string) (children : list listing).

(** [yarn list --json] output: [{"data": {"trees": [...]}}], either level
    possibly absent. *)
Record list_data : Type := ListData { ld_trees : option (list listing) }.
Record list_json : Type := ListJson { lj_data : option list_data }.

(** [package.json]. *)
Record package_json : Type := PackageJson {
  pj_name : option string;
  pj_version : option string;
  pj_dependencies : option (dict string)
}.

(** *** Intermediate structures *)

(** Locked versions; a value may be [None]. *)
Definition package_map : Type := dict (option string).

(** [package_map.get(key)] *)
Definition pm_get (m : package_map) (key : string) : option string :=
  match dict_get m key with
  | Some v => v
  | None => None
  end.

(** A record of the flat tree:
    [{"name": ..., "version": ..., "dependencies": {...}}], its
    [dependencies] a dict, as in every record [get_flat_tree] builds.  A
    record without the key reads as one with the empty dict (every reader
    goes through [.get]); a record that stores [None] under the key is
    outside this type. *)
Inductive flat : Type :=
| Flat (name : option string) (version : option string) (dependencies : dict flat).

Definition flat_name (f : flat) : option string :=
  let 'Flat n _ _ := f in n.
Definition flat_version (f : flat) : option string :=
  let 'Flat _ v _ := f in v.
Definition flat_dependencies (f : flat) : dict flat :=
  let 'Flat _ _ d := f in d.

(** An [AnyNode] while the tree is being built, seen from below: its
    attributes and the [parent] reference ([None] at the root). *)
Inductive pnode : Type :=
| PNode (name : string) (version : option string)
        (dependencies : dict flat) (parent : option pnode).

Definition pn_name (p : pnode) : string := let 'PNode n _ _ _ := p in n.
Definition pn_version (p : pnode) : option string := let 'PNode _ v _ _ := p in v.
Definition pn_dependencies (p : pnode) : dict flat := let 'PNode _ _ d _ := p in d.
Definition pn_parent (p : pnode) : option pnode := let 'PNode _ _ _ q := p in q.

(** [node.dependencies = d] *)
Definition set_dependencies (p : pnode) (d : dict flat) : pnode :=
  let 'PNode n v _ q := p in PNode n v d q.

(** The finished tree, seen from above, after the helper [dependencies]
    attribute has been deleted. *)
Inductive node : Type :=
| AnyNode (name : string) (version : option string) (children : list node).

Definition node_name (t : node) : string := let 'AnyNode n _ _ := t in n.
Definition node_version (t : node) : option string := let 'AnyNode _ v _ := t in v.
Definition node_children (t : node) : list node := let 'AnyNode _ _ c := t in c.

(** The tree after the annotation pass of [check]. *)
Inductive lnode : Type :=
| LNode (name : string) (version : option string) (license : option string)
        (children : list lnode).

Definition lnode_license (t : lnode) : option string := let 'LNode _ _ l _ := t in l.
Definition lnode_children (t : lnode) : list lnode := let 'LNode _ _ _ c := t in c.

(** *** The functions of the module *)

Definition parse_yarn_lock (json_element : lock_json) : package_map :=
  fold_left
    (fun package_map kd =>
       let '(key, dependency) := kd in
       dict_set package_map key (le_version dependency))
    (match lj_object json_element with Some o => o | None => [] end)
    [].

Definition get_name (name : string) : outcome string :=
  match split "@" name with
  | parsedName :: signName :: rest =>
      if startswith "@" name then Return ("@" ++ signName)%string
      else Return parsedName
  | _ => Raise ValueError
  end.

Fixpoint get_flat_tree_entry (package_map : package_map) (dependency : listing)
  : outcome (string * flat) :=
  let 'Listing name children := dependency in
  match name with
  | None => Raise AttributeError     (* [None.split] inside [get_name] *)
  | Some dep_full_name =>
      nm <- get_name dep_full_name ;;
      deps <- (fix loop (dependencies : list listing) (flat_tree : dict flat) :=
                 match dependencies with
                 | [] => Return flat_tree
                 | d :: rest =>
                     kv <- get_flat_tree_entry package_map d ;;
                     loop rest (dict_set flat_tree (fst kv) (snd kv))
                 end) children [] ;;
      Return (dep_full_name,
              Flat (Some nm) (pm_get package_map dep_full_name) deps)
  end.

Fixpoint get_flat_tree_from (package_map : package_map)
  (dependencies : list listing) (flat_tree : dict flat) : outcome (dict flat) :=
  match dependencies with
  | [] => Return flat_tree
  | d :: rest =>
      kv <- get_flat_tree_entry package_map d ;;
      get_flat_tree_from package_map rest (dict_set flat_tree (fst kv) (snd kv))
  end.

Definition get_flat_tree (dependencies : list listing) (package_map : package_map)
  : outcome (dict flat) :=
  get_flat_tree_from package_map dependencies [].

Definition get_node_from_dependency (dependency : flat) (parent : pnode)
  : option pnode :=
  let dep_version := flat_version dependency in
  let dep_name := flat_name dependency in
  if negb (truthy dep_version) || negb (truthy dep_name) then None
  else Some (PNode (fmt dep_name) dep_version
                   (flat_dependencies dependency) (Some parent)).

Definition find_full_dependency (dependencies : dict flat) (name : string)
  : option flat :=
  match dependencies with
  | [] => None
  | _ =>
      match dict_get dependencies name with
      | None => None
      | Some dependency =>
          match flat_dependencies dependency with
          | [] => None
          | _ => Some dependency
          end
      end
  end.

(** [if not dep and full_dep: dep = full_dep] *)
Definition adopt (dep full_dep : option flat) : option flat :=
  match dep, full_dep with
  | None, Some f => Some f
  | _, _ => dep
  end.

(** The [while checkNode.parent] loop of [add_nested_dependencies] followed
    by the check of the root: returns the final [dep] and [names]. *)
Fixpoint walk (dep_name : string) (checkNode : pnode) (dep : option flat)
  (names : list string) : option flat * list string :=
  match checkNode with
  | PNode _ _ dependencies (Some p) =>
      let full_dep := find_full_dependency dependencies dep_name in
      walk dep_name p (adopt dep full_dep) (names ++ [pn_name p])
  | PNode _ _ dependencies None =>
      let full_dep := find_full_dependency dependencies dep_name in
      (adopt dep full_dep, names)
  end.

(** One iteration of the [for] loop of [add_nested_dependencies]; [recurse]
    is the recursive call.  The iteration attaches at most one node. *)
Definition expand (recurse : flat -> pnode -> outcome (list node))
  (parent : pnode) (dependency : flat) : outcome (list node) :=
  match get_node_from_dependency dependency parent with
  | None => Return []
  | Some node =>
      let dep_name := at_key (pn_name node) (fmt (pn_version node)) in
      let '(dep, names) := walk dep_name parent None [] in
      let node :=
        match dep with
        | Some full_dep => set_dependencies node (flat_dependencies full_dep)
        | None => node
        end in
      let names := drop_last names in
      children <-
        (if py_in (pn_name node) names then Return []
         else match dep with
              | Some d => recurse d node
              | None => Return []
              end) ;;
      Return [AnyNode (pn_name node) (pn_version node) children]
  end.

(** Returns the children attached to [parent].  The recursion is not
    structural (the record recursed into is found in an ancestor), hence
    the fuel. *)
Fixpoint add_nested_dependencies (fuel : nat) (dependency : flat) (parent : pnode)
  : outcome (list node) :=
  match fuel with
  | O => OutOfFuel
  | S fuel' =>
      for_each (expand (add_nested_dependencies fuel') parent)
               (values (flat_dependencies dependency))
  end.

(** One iteration of the loop over the manifest in [get_dependency_tree]. *)
Definition top_level (fuel : nat) (flat_tree : dict flat) (package_map : package_map)
  (root : pnode) (item : string * string) : outcome (list node) :=
  let '(dep_name, dep_version) := item in
  let resolved_version := pm_get package_map (at_key dep_name dep_version) in
  match dict_get flat_tree (at_key dep_name (fmt resolved_version)) with
  | None => Raise AttributeError     (* [None.get('version')] *)
  | Some dependency =>
      let parent := PNode dep_name (flat_version dependency)
                          (flat_dependencies dependency) (Some root) in
      children <- add_nested_dependencies fuel dependency parent ;;
      Return [AnyNode dep_name (flat_version dependency) children]
  end.

Definition root_name (package_json : package_json) : string :=
  match pj_name package_json with Some n => n | None => "package.json" end.

Definition manifest (package_json : package_json) : dict string :=
  match pj_dependencies package_json with Some d => d | None => [] end.

Definition get_dependency_tree_fuel (fuel : nat) (flat_tree : dict flat)
  (package_json : package_json) (package_map : package_map) : outcome node :=
  let root := PNode (root_name package_json) (pj_version package_json)
                    flat_tree None in
  children <- for_each (top_level fuel flat_tree package_map root)
                       (manifest package_json) ;;
  Return (AnyNode (root_name package_json) (pj_version package_json) children).

(** Every name recorded anywhere in a flat tree. *)
Fixpoint names_of (f : flat) : list string :=
  let 'Flat n _ d := f in
  (match n with Some s => [s] | None => [] end)
    ++ flat_map (fun kv => names_of (snd kv)) d.

Definition names_in (d : dict flat) : list string :=
  flat_map (fun kv => names_of (snd kv)) d.

(** Recursion depth that no input exceeds (see [add_nested_dependencies_returns]). *)
Definition fuel_bound (flat_tree : dict flat) : nat :=
  2 * List.length (names_in flat_tree) + 2.

Definition get_dependency_tree (flat_tree : dict flat)
  (package_json : package_json) (package_map : package_map) : outcome node :=
  get_dependency_tree_fuel (fuel_bound flat_tree) flat_tree package_json package_map.

(** The annotation loop of [check]:
    [node.license = license_map.get(f'{node.name}@{node.version}', None)]. *)
Fixpoint annotate (license_map : dict string) (t : node) : lnode :=
  let 'AnyNode name version children := t in
  LNode name version
        (dict_get license_map (at_key name (fmt version)))
        (map (annotate license_map) children).

(** [YarnRunner.check], given what the three files and commands deliver. *)
Definition check (package_json : package_json) (lock : lock_json) (yarn_list : list_json)
  : outcome (lnode * dict string) :=
  let package_map := parse_yarn_lock lock in
  let trees :=
    match lj_data yarn_list with
    | Some data => match ld_trees data with Some t => t | None => [] end
    | None => []
    end in
  flat_tree <- get_flat_tree trees package_map ;;
  dep_tree <- get_dependency_tree flat_tree package_json package_map ;;
  let license_map : dict string := [] in
  Return (annotate license_map dep_tree, license_map).

End Yarn.


(** ** The python runner: [license_sh/runners/python/__init__.py] *)
Module Pypi.

(** A value produced by [json.loads].  Numbers keep their lexeme: the code
    never computes with them. *)
Inductive json : Type :=
| JNull
| JBool (b : bool)
| JNum (lexeme : string)
| JStr (s : string)
| JArr (items : list json)
| JObj (fields : dict json).

(** What [json.loads(await result)] does with one response body that was
    received: it raises [JSONDecodeError] or it returns a value.  A request
    that fails in transport, or a body on which [json.loads] raises another
    exception, is outside this type. *)
Inductive decoded : Type :=
| JSONDecodeError
| Decoded (page : json).

Section Fetch.

(** [str(x)] for a decoded number, list or dict; its value plays no role. *)
Variable str_other : json -> string.

(** [str(x)] inside an f-string. *)
Definition py_str (x : json) : string :=
  match x with
  | JStr s => s
  | JNull => "None"
  | JBool true => "True"
  | JBool false => "False"
  | _ => str_other x
  end.

(** [obj.get(key, default)]; only a dict has the method. *)
Definition get (obj : json) (key : string) (default : json) : outcome json :=
  match obj with
  | JObj fields =>
      Return (match dict_get fields key with Some v => v | None => default end)
  | _ => Raise AttributeError
  end.

(** The body of the [for result in asyncio.as_completed(tasks)] loop. *)
Definition record (license_map : dict json) (result : decoded)
  : outcome (dict json) :=
  match result with
  | JSONDecodeError => Return license_map          (* [except JSONDecodeError: pass] *)
  | Decoded page =>
      info <- get page "info" (JObj []) ;;
      license <- get info "license" (JStr "Unknown") ;;
      name <- get info "name" JNull ;;
      version <- get info "version" JNull ;;
      Return (dict_set license_map (at_key (py_str name) (py_str version)) license)
  end.

(** The loop itself, over the results in the order the requests complete. *)
Fixpoint fetch_concurrent (results : list decoded) (license_map : dict json)
  : outcome (dict json) :=
  match results with
  | [] => Return license_map
  | result :: rest =>
      license_map' <- record license_map result ;;
      fetch_concurrent rest license_map'
  end.

(** [PythonRunner.fetch_licenses]: [completed] lists the queried
    [(dependency, version)] pairs, each with the decoding of the body its
    request received, in completion order. *)
Definition fetch_licenses (completed : list (string * string * decoded))
  : outcome (dict json) :=
  fetch_concurrent (map snd completed) [].

End Fetch.

End Pypi.

Import Yarn.

(** ** Vocabulary of the specification *)

(** The names the [while] loop started at [p] appends to [names]: those of
    the strict ancestors of [p], nearest first, the root last. *)
Fixpoint ancestor_names (p : pnode) : list string :=
  match p with
  | PNode _ _ _ (Some q) => pn_name q :: ancestor_names q
  | PNode _ _ _ None => []
  end.

(** [p] and its ancestors, nearest first, the root left out. *)
Fixpoint path_names (p : pnode) : list string :=
  match p with
  | PNode n _ _ (Some q) => n :: path_names q
  | PNode _ _ _ None => []
  end.

(** The names a child of [parent] is tested against by the cycle guard. *)
Definition guard_names (parent : pnode) : list string := tl (path_names parent).

(** Following the words of the specification (section 4.3, step 3): search
    the ancestor chain from [ancestor] outward to the root for a recorded
    entry [dep_key] whose own child-set is non-empty; closest match first. *)
Fixpoint closest_full_record (dep_key : string) (ancestor : pnode) : option flat :=
  match ancestor with
  | PNode _ _ dependencies parent =>
      match find_full_dependency dependencies dep_key with
      | Some record => Some record
      | None =>
          match parent with
          | Some p => closest_full_record dep_key p
          | None => None
          end
      end
  end.

(** A flat record with a usable name and a usable version. *)
Definition usable (r : flat) : bool :=
  truthy (flat_version r) && truthy (flat_name r).

Definition flat_id (r : flat) : string * option string :=
  (fmt (flat_name r), flat_version r).

Definition node_id (t : node) : string * option string :=
  (node_name t, node_version t).

(** The nodes a child-set gives rise to, by name and version, in order. *)
Definition child_set_ids (d : dict flat) : list (string * option string) :=
  map flat_id (filter usable (values d)).

(** What the expansion loop makes of one usable record [r] below [parent]:
    the node [child]. *)
Definition reconciled (parent : pnode) (r : flat) (child : node) : Prop :=
  node_id child = flat_id r
  /\ match closest_full_record
             (at_key (node_name child) (fmt (node_version child))) parent with
     | Some auth =>
         flat_dependencies auth <> []
         /\ if py_in (node_name child) (guard_names parent)
            then node_children child = []
            else map node_id (node_children child)
                 = child_set_ids (flat_dependencies auth)
                 /\ exists fuel,
                      add_nested_dependencies fuel auth
                        (PNode (node_name child) (node_version child)
                               (flat_dependencies auth) (Some parent))
                      = Return (node_children child)
     | None => node_children child = []
     end.

(** The acyclicity invariant as the specification words it: below the root,
    no node carries the name of one of its strict ancestors.  [ancestors]
    holds the names of the non-root strict ancestors of [t]. *)
Fixpoint acyclic_from (ancestors : list string) (t : node) : bool :=
  let 'AnyNode name _ children := t in
  negb (py_in name ancestors)
  && forallb (acyclic_from (name :: ancestors)) children.

Definition acyclic (root : node) : bool :=
  forallb (acyclic_from []) (node_children root).

(** What the cycle guard enforces: a node that has children does not carry
    the name of a strict ancestor other than its parent and the root. *)
Fixpoint guarded_from (ancestors : list string) (t : node) : bool :=
  let 'AnyNode name _ children := t in
  match children with
  | [] => true
  | _ => negb (py_in name (tl ancestors))
         && forallb (guarded_from (name :: ancestors)) children
  end.

Definition guarded (root : node) : bool :=
  forallb (guarded_from []) (node_children root).

(** [PreOrderIter(root)] on an annotated tree. *)
Fixpoint PreOrderIter (t : lnode) : list lnode :=
  let 'LNode _ _ _ children := t in
  t :: flat_map PreOrderIter children.


(** Every name recorded in the scopes of [p] and of its ancestors lies in [U]. *)
Fixpoint scopes_within (U : list string) (p : pnode) : Prop :=
  match p with
  | PNode _ _ d parent =>
      incl (names_in d) U
      /\ match parent with
         | Some q => scopes_within U q
         | None => True
         end
  end.

(** How many names of [U] do not occur in [L]. *)
Definition fresh_count (U L : list string) : nat :=
  List.length (filter (fun u => negb (py_in u L)) U).

(** The measure that bounds the depth of the recursion below a node whose
    [path_names] is [L]. *)
Definition depth_budget (U L : list string) : nat :=
  2 * fresh_count U L
  + match L with
    | [] => 1
    | x :: T => if py_in x T then 0 else 1
    end.

(** ** Scenarios of the specification *)
Module Scenario.

Definition leaf (name version : string) : flat :=
  Flat (Some name) (Some version) [].

(** Section 8: [a@1.2.0] lists [b@2.0.0] without children, whose full
    child list is recorded at the root level. *)
Definition chain_flat_tree : dict flat :=
  [("a@1.2.0", Flat (Some "a") (Some "1.2.0") [("b@2.0.0", leaf "b" "2.0.0")]);
   ("b@2.0.0", Flat (Some "b") (Some "2.0.0") [("c@3.0.0", leaf "c" "3.0.0")])].
Definition chain_package_json : package_json :=
  PackageJson (Some "project") (Some "0.1.0") (Some [("a", "^1.0.0")]).
Definition chain_package_map : package_map :=
  [("a@^1.0.0", Some "1.2.0"); ("a@1.2.0", Some "1.2.0");
   ("b@2.0.0", Some "2.0.0"); ("c@3.0.0", Some "3.0.0")].
Definition chain_lock : lock_json :=
  LockJson (Some [("a@^1.0.0", LockEntry (Some "1.2.0"));
                  ("a@1.2.0", LockEntry (Some "1.2.0"));
                  ("b@2.0.0", LockEntry (Some "2.0.0"));
                  ("c@3.0.0", LockEntry (Some "3.0.0"))]).
Definition chain_listing : list_json :=
  ListJson (Some (ListData (Some
    [Listing (Some "a@1.2.0") [Listing (Some "b@2.0.0") []];
     Listing (Some "b@2.0.0") [Listing (Some "c@3.0.0") []]]))).

(** Section 8: [x@1.0.0] depends on [y@1.0.0], which lists [x@1.0.0] again. *)
Definition cycle_flat_tree : dict flat :=
  [("x@1.0.0",
    Flat (Some "x") (Some "1.0.0")
         [("y@1.0.0",
           Flat (Some "y") (Some "1.0.0") [("x@1.0.0", leaf "x" "1.0.0")])])].
Definition cycle_package_json : package_json :=
  PackageJson (Some "project") (Some "0.1.0") (Some [("x", "1.0.0")]).
Definition cycle_package_map : package_map :=
  [("x@1.0.0", Some "1.0.0"); ("y@1.0.0", Some "1.0.0")].
Definition cycle_listing : list listing :=
  [Listing (Some "x@1.0.0")
           [Listing (Some "y@1.0.0") [Listing (Some "x@1.0.0") []]]].


(** [z@4.0.0] below [a] and below [b]; [a] records a child list for it and
    so does the root level, with different children. *)
Definition split_flat_tree : dict flat :=
  [("a@1.0.0",
    Flat (Some "a") (Some "1.0.0")
         [("z@4.0.0", Flat (Some "z") (Some "4.0.0") [("p@1.0.0", leaf "p" "1.0.0")])]);
   ("b@1.0.0", Flat (Some "b") (Some "1.0.0") [("z@4.0.0", leaf "z" "4.0.0")]);
   ("z@4.0.0", Flat (Some "z") (Some "4.0.0") [("q@1.0.0", leaf "q" "1.0.0")])].
Definition split_package_json : package_json :=
  PackageJson (Some "project") (Some "0.1.0")
              (Some [("a", "1.0.0"); ("b", "1.0.0")]).
Definition split_package_map : package_map :=
  [("a@1.0.0", Some "1.0.0"); ("b@1.0.0", Some "1.0.0");
   ("z@4.0.0", Some "4.0.0"); ("p@1.0.0", Some "1.0.0");
   ("q@1.0.0", Some "1.0.0")].
Definition split_listing : list listing :=
  [Listing (Some "a@1.0.0")
           [Listing (Some "z@4.0.0") [Listing (Some "p@1.0.0") []]];
   Listing (Some "b@1.0.0") [Listing (Some "z@4.0.0") []];
   Listing (Some "z@4.0.0") [Listing (Some "q@1.0.0") []]].

(** [z@4.0.0] below [a] and below [b], its child list recorded once, by [a]. *)
Definition nested_flat_tree : dict flat :=
  [("a@1.0.0",
    Flat (Some "a") (Some "1.0.0")
         [("z@4.0.0", Flat (Some "z") (Some "4.0.0") [("q@1.0.0", leaf "q" "1.0.0")])]);
   ("b@1.0.0", Flat (Some "b") (Some "1.0.0") [("z@4.0.0", leaf "z" "4.0.0")])].

(** Section 8: two unrelated subtrees depend on [z@4.0.0], whose child list
    is recorded once, at the root level. *)
Definition shared_flat_tree : dict flat :=
  [("a@1.0.0", Flat (Some "a") (Some "1.0.0") [("z@4.0.0", leaf "z" "4.0.0")]);
   ("b@1.0.0", Flat (Some "b") (Some "1.0.0") [("z@4.0.0", leaf "z" "4.0.0")]);
   ("z@4.0.0", Flat (Some "z") (Some "4.0.0") [("q@1.0.0", leaf "q" "1.0.0")])].

(** The nodes of the chain scenario while [a]'s children are attached. *)
Definition chain_root : pnode :=
  PNode "project" (Some "0.1.0") chain_flat_tree None.
Definition chain_a : pnode :=
  PNode "a" (Some "1.2.0") [("b@2.0.0", leaf "b" "2.0.0")] (Some chain_root).

(** A registry answer with a [null] license, one with a license string,
    one without the field. *)
Definition page (name version : string) (license : option Pypi.json) : Pypi.json :=
  Pypi.JObj
    [("info",
      Pypi.JObj ([("name", Pypi.JStr name); ("version", Pypi.JStr version)]
                 ++ match license with
                    | Some l => [("license", l)]
                    | None => []
                    end))].
Definition null_license : list (string * string * Pypi.decoded) :=
  [("a", "1.0.0", Pypi.Decoded (page "a" "1.0.0" (Some Pypi.JNull)))].
Definition five_requests : list (string * string * Pypi.decoded) :=
  [("a", "1.0.0", Pypi.Decoded (page "a" "1.0.0" (Some (Pypi.JStr "MIT"))));
   ("b", "2.0.0", Pypi.Decoded (page "b" "2.0.0" None))]
  ++ ("c", "3.0.0", Pypi.JSONDecodeError)
  :: [("d", "4.0.0", Pypi.Decoded (page "d" "4.0.0" (Some (Pypi.JStr "BSD"))));
      ("e", "5.0.0", Pypi.Decoded (page "e" "5.0.0" (Some (Pypi.JStr "Apache-2.0"))))].
Definition no_str : Pypi.json -> string := fun _ => EmptyString.

(** A package that lists itself: [a@1.0.0] depends on [a@1.0.0]. *)
Definition self_listing : list listing :=
  [Listing (Some "a@1.0.0") [Listing (Some "a@1.0.0") []]].
Definition self_flat_tree : dict flat :=
  [("a@1.0.0", Flat (Some "a") (Some "1.0.0") [("a@1.0.0", leaf "a" "1.0.0")])].
Definition self_package_json : package_json :=
  PackageJson (Some "project") (Some "0.1.0") (Some [("a", "1.0.0")]).
Definition self_package_map : package_map := [("a@1.0.0", Some "1.0.0")].

(** [a@1.0.0] lists [b@1.0.0], which the lock data does not resolve, with a
    child [c@1], and [b@^1], which it resolves to [1.0.0], without children. *)
Definition borrowed_listing : list listing :=
  [Listing (Some "a@1.0.0")
           [Listing (Some "b@1.0.0") [Listing (Some "c@1") []];
            Listing (Some "b@^1") []]].
Definition borrowed_package_map : package_map :=
  [("a@1.0.0", Some "1.0.0"); ("b@^1", Some "1.0.0"); ("c@1", Some "1")].
Definition borrowed_unusable : flat :=
  Flat (Some "b") None [("c@1", leaf "c" "1")].
Definition borrowed_flat_tree : dict flat :=
  [("a@1.0.0",
    Flat (Some "a") (Some "1.0.0")
         ([] ++ ("b@1.0.0", borrowed_unusable) :: [("b@^1", leaf "b" "1.0.0")]))].
Definition borrowed_root : pnode :=
  PNode "project" (Some "0.1.0") borrowed_flat_tree None.
Definition borrowed_a : pnode :=
  PNode "a" (Some "1.0.0")
        [("b@1.0.0", borrowed_unusable); ("b@^1", leaf "b" "1.0.0")]
        (Some borrowed_root).

(** A top-level record that the lock data does not resolve under its own
    name: the listing calls it [a@1.2.0], the lock data knows [a@^1.0.0]. *)
Definition unchecked_listing : list listing := [Listing (Some "a@1.2.0") []].
Definition unchecked_package_map : package_map := [("a@^1.0.0", Some "1.2.0")].
Definition unchecked_flat_tree : dict flat :=
  [("a@1.2.0", Flat (Some "a") None [])].

(** A manifest entry that the lock data does not resolve. *)
Definition unresolved_package_json : package_json :=
  PackageJson (Some "project") (Some "0.1.0") (Some [("a", "^1.0.0")]).

End Scenario.

(** The entries of the parsed lock file. *)
Definition lock_object (lock : lock_json) : dict lock_entry :=
  match lj_object lock with Some o => o | None => [] end.

(** What [parse_yarn_lock] keeps of an entry. *)
Definition locked (kd : string * lock_entry) : string * option string :=
  (fst kd, le_version (snd kd)).

(** C5, as the specification words it: an entry without a resolved version
    leaves no key in the version map. *)
Definition skips_unresolved_entries (lock : lock_json) : Prop :=
  forall key entry,
    In (key, entry) (lock_object lock) ->
    le_version entry = None ->
    ~ In key (keys (parse_yarn_lock lock)).

(** C2, as the specification words it. *)
Definition no_node_named_after_ancestor (flat_tree : dict flat)
  (package_json : package_json) (package_map : package_map) : Prop :=
  forall tree,
    get_dependency_tree flat_tree package_json package_map = Return tree ->
    acyclic tree = true.




(** C6, as the specification words it: a queried pair is in the license map
    under [name@version] with a string, or it is not in the map. *)
Definition string_or_omitted (str_other : Pypi.json -> string)
  (completed : list (string * string * Pypi.decoded)) : Prop :=
  forall license_map,
    Pypi.fetch_licenses str_other completed = Return license_map ->
    forall name version result,
      In (name, version, result) completed ->
      match dict_get license_map (at_key name version) with
      | Some value => exists s, value = Pypi.JStr s
      | None => True
      end.

(** [obj.get(key)] on a decoded dict. *)
Definition field (obj : Pypi.json) (key : string) : Pypi.json :=
  match obj with
  | Pypi.JObj fields =>
      match dict_get fields key with Some v => v | None => Pypi.JNull end
  | _ => Pypi.JNull
  end.

(** ** The tree builder of the python runner *)
Module PipTree.

(** One record of [pipdeptree --json-tree]:
    [{"package_name": ..., "installed_version": ..., "dependencies": [...]}],
    each of the three keys possibly absent. *)
Inductive dep : Type :=
| Dep (package_name : option string) (installed_version : option string)
      (dependencies : option (list dep)).

(** Outcome of code whose only failure is a subscript [d[key]] on a dict
    without [key]. *)
Inductive built (A : Type) : Type :=
| Built (a : A)
| KeyError (key : string).
Arguments Built {A} a.
Arguments KeyError {A} key.

(** [add_nested_dependencies(dep, parent)] of the python runner; the result
    is the node attached to [parent]. *)
Fixpoint add_nested_dependencies (d : dep) : built node :=
  let 'Dep package_name installed_version dependencies := d in
  match package_name with
  | None => KeyError "package_name"
  | Some name =>
      match installed_version with
      | None => KeyError "installed_version"
      | Some version =>
          match dependencies with
          | None => KeyError "dependencies"
          | Some depdendencies =>
              match (fix loop (l : list dep) : built (list node) :=
                       match l with
                       | [] => Built []
                       | x :: l' =>
                           match add_nested_dependencies x with
                           | KeyError k => KeyError k
                           | Built n =>
                               match loop l' with
                               | KeyError k => KeyError k
                               | Built ns => Built (n :: ns)
                               end
                           end
                       end) depdendencies with
              | KeyError k => KeyError k
              | Built children => Built (AnyNode name (Some version) children)
              end
          end
      end
  end.

(** The loop [for dep in ...: add_nested_dependencies(dep, node)]. *)
Fixpoint add_all (l : list dep) : built (list node) :=
  match l with
  | [] => Built []
  | x :: l' =>
      match add_nested_dependencies x with
      | KeyError k => KeyError k
      | Built n =>
          match add_all l' with
          | KeyError k => KeyError k
          | Built ns => Built (n :: ns)
          end
      end
  end.

(** The tree [PythonRunner.check] builds from the parsed [pipdeptree]
    output before it collects and fetches anything. *)
Definition check_tree (dep_tree : list dep) : built node :=
  match add_all dep_tree with
  | KeyError k => KeyError k
  | Built children => Built (AnyNode "root" (Some EmptyString) children)
  end.

(** Every record, at every depth, has its three keys. *)
Fixpoint complete (d : dep) : bool :=
  let 'Dep package_name installed_version dependencies := d in
  match package_name, installed_version, dependencies with
  | Some _, Some _, Some l => forallb complete l
  | _, _, _ => false
  end.

(** A tree read back as [pipdeptree] records. *)
Fixpoint to_dep (t : node) : dep :=
  let 'AnyNode name version children := t in
  Dep (Some name) version (Some (map to_dep children)).

End PipTree.

(** ** Further vocabulary *)

(** [get_yarn_list_json(...).get('data', {}).get('trees', [])] *)
Definition trees_of (yarn_list : list_json) : list listing :=
  match lj_data yarn_list with
  | Some data => match ld_trees data with Some t => t | None => [] end
  | None => []
  end.

(** The name of a listing record. *)
Definition listing_name (l : listing) : option string :=
  let 'Listing name _ := l in name.

(** Every record of a listing, at every depth, has a name with an [@]. *)
Fixpoint all_named (l : listing) : bool :=
  let 'Listing name children := l in
  match name with
  | Some s => occurs "@" s
  | None => false
  end && forallb all_named children.

(** A flat record, and every record below it, is what [get_flat_tree] makes
    of a listing record called [key]. *)
Inductive keyed_record (package_map : package_map) : string -> flat -> Prop :=
| keyed nm key d :
    get_name key = Return nm ->
    nm <> EmptyString ->
    dict_wf d ->
    Forall (fun kv => keyed_record package_map (fst kv) (snd kv)) d ->
    keyed_record package_map key (Flat (Some nm) (pm_get package_map key) d).

(** Every record found anywhere below a flat record, or in a flat tree. *)
Fixpoint records_of (f : flat) : list flat :=
  let 'Flat _ _ d := f in
  flat_map (fun kv => snd kv :: records_of (snd kv)) d.

Definition records_in (d : dict flat) : list flat :=
  flat_map (fun kv => snd kv :: records_of (snd kv)) d.

(** Every record in the scopes of [p] and of its ancestors lies in [R]. *)
Fixpoint scopes_among (R : list flat) (p : pnode) : Prop :=
  match p with
  | PNode _ _ d parent =>
      incl (records_in d) R
      /\ match parent with
         | Some q => scopes_among R q
         | None => True
         end
  end.

(** A node and all the nodes below it, in pre-order. *)
Fixpoint nodes_of (t : node) : list node :=
  let 'AnyNode _ _ children := t in
  t :: flat_map nodes_of children.

(** Number of nodes on the longest path from [t] down to a leaf. *)
Fixpoint height (t : node) : nat :=
  let 'AnyNode _ _ children := t in
  S (list_max (map height children)).

Definition lnode_name (t : lnode) : string := let 'LNode n _ _ _ := t in n.
Definition lnode_version (t : lnode) : option string := let 'LNode _ v _ _ := t in v.

(** An annotated tree without its licenses. *)
Fixpoint strip (t : lnode) : node :=
  let 'LNode name version _ children := t in
  AnyNode name version (map strip children).

(** [page.get('info', {})] when [page] is a dict. *)
Definition page_info (page : Pypi.json) : Pypi.json :=
  match page with
  | Pypi.JObj fields =>
      match dict_get fields "info" with Some i => i | None => Pypi.JObj [] end
  | _ => Pypi.JObj []
  end.

(** A decoded page on which no [.get] fails: a dict whose [info], when
    there is one, is a dict. *)
Definition well_formed (page : Pypi.json) : bool :=
  match page with
  | Pypi.JObj _ =>
      match page_info page with
      | Pypi.JObj _ => true
      | _ => false
      end
  | _ => false
  end.

(** The key and the value a well-formed page puts in the license map. *)
Definition page_key (str_other : Pypi.json -> string) (page : Pypi.json) : string :=
  at_key (Pypi.py_str str_other (field (page_info page) "name"))
         (Pypi.py_str str_other (field (page_info page) "version")).

Definition page_license (page : Pypi.json) : Pypi.json :=
  match page_info page with
  | Pypi.JObj fields =>
      match dict_get fields "license" with
      | Some l => l
      | None => Pypi.JStr "Unknown"
      end
  | _ => Pypi.JStr "Unknown"
  end.

(** The bindings the decoded responses write, in completion order. *)
Definition writes (str_other : Pypi.json -> string)
  (completed : list (string * string * Pypi.decoded)) : dict Pypi.json :=
  flat_map (fun c => match snd c with
                     | Pypi.Decoded page =>
                         [(page_key str_other page, page_license page)]
                     | Pypi.JSONDecodeError => []
                     end) completed.

(** [license_map[key] = value] for a list of bindings, in order. *)
Definition write_all {A : Type} (ws : dict A) (license_map : dict A) : dict A :=
  fold_left (fun m kv => dict_set m (fst kv) (snd kv)) ws license_map.

(** Every response that decodes is well-formed. *)
Definition all_well_formed (completed : list (string * string * Pypi.decoded)) : bool :=
  forallb (fun c => match snd c with
                    | Pypi.Decoded page => well_formed page
                    | Pypi.JSONDecodeError => true
                    end) completed.

(** ** Vocabulary for the trees of the reconciliation *)

(** A node that has children does not carry the name of any of its strict
    ancestors, the root apart: what remains of the acyclicity invariant
    when leaves are left out. *)
Fixpoint expanded_acyclic_from (ancestors : list string) (t : node) : bool :=
  let 'AnyNode name _ children := t in
  match children with
  | [] => true
  | _ => negb (py_in name ancestors)
         && forallb (expanded_acyclic_from (name :: ancestors)) children
  end.

Definition expanded_acyclic (root : node) : bool :=
  forallb (expanded_acyclic_from []) (node_children root).

(** A node and all the nodes below it carry a usable name and version. *)
Fixpoint all_usable (t : node) : bool :=
  let 'AnyNode name version children := t in
  truthy (Some name) && truthy version && forallb all_usable children.

(** [attached parent records kids]: [kids] are the nodes that belong below
    [parent] for the records [records] of the child-set being expanded.
    A record that is not usable gives no node.  A usable record gives one
    node; the node is a leaf when its name is in the guard list of
    [parent] or when no scope from [parent] to the root lists its
    [name@version] with a non-empty child-set; otherwise its children are
    those that belong below it for the child-set it adopts. *)
Inductive attached : pnode -> list flat -> list node -> Prop :=
| attached_done parent :
    attached parent [] []
| attached_skipped parent r rs kids :
    usable r = false ->
    attached parent rs kids ->
    attached parent (r :: rs) kids
| attached_guarded_leaf parent r rs kids :
    usable r = true ->
    In (fmt (flat_name r)) (guard_names parent) ->
    attached parent rs kids ->
    attached parent (r :: rs)
             (AnyNode (fmt (flat_name r)) (flat_version r) [] :: kids)
| attached_unlisted_leaf parent r rs kids :
    usable r = true ->
    ~ In (fmt (flat_name r)) (guard_names parent) ->
    closest_full_record
      (at_key (fmt (flat_name r)) (fmt (flat_version r))) parent = None ->
    attached parent rs kids ->
    attached parent (r :: rs)
             (AnyNode (fmt (flat_name r)) (flat_version r) [] :: kids)
| attached_expanded parent r rs auth children kids :
    usable r = true ->
    ~ In (fmt (flat_name r)) (guard_names parent) ->
    closest_full_record
      (at_key (fmt (flat_name r)) (fmt (flat_version r))) parent = Some auth ->
    attached (PNode (fmt (flat_name r)) (flat_version r)
                    (flat_dependencies auth) (Some parent))
             (values (flat_dependencies auth)) children ->
    attached parent rs kids ->
    attached parent (r :: rs)
             (AnyNode (fmt (flat_name r)) (flat_version r) children :: kids).



(** C2 with the leaves left out: no node that has children carries the name
    of a strict ancestor, the root apart. *)
Definition no_expanded_node_named_after_ancestor (flat_tree : dict flat)
  (package_json : package_json) (package_map : package_map) : Prop :=
  forall tree,
    get_dependency_tree flat_tree package_json package_map = Return tree ->
    expanded_acyclic tree = true.

(** C8, as the specification words it, in two parts.  No node is emitted
    for a record without a usable name or version: every node of a returned
    tree, the root apart, carries a usable name and version. *)
Definition no_node_for_unusable_record : Prop :=
  forall flat_tree package_json package_map tree,
    get_dependency_tree flat_tree package_json package_map = Return tree ->
    forallb all_usable (node_children tree) = true.

(** The tree is missing the branch of such a record: it is the tree that
    the flat tree without the record gives. *)
Definition branch_of_unusable_record_is_missing : Prop :=
  forall package_json package_map k n v d1 key r d2 rest,
    usable r = false ->
    get_dependency_tree ((k, Flat n v (d1 ++ (key, r) :: d2)) :: rest)
      package_json package_map
    = get_dependency_tree ((k, Flat n v (d1 ++ d2)) :: rest)
        package_json package_map.

(** The names of a listing record and of all the records below it. *)
Fixpoint names_below (l : listing) : list string :=
  let 'Listing name children := l in
  match name with
  | Some s => [s]
  | None => []
  end ++ flat_map names_below children.

(** A flat record made of a listing record whose name is in [S]. *)
Definition keyed_among (package_map : package_map) (S : list string) (r : flat)
  : Prop :=
  exists key, In key S /\ keyed_record package_map key r.

(** ** Facts about the Python run-time notions *)

Lemma py_in_spec x xs : py_in x xs = true <-> In x xs.
Proof.
  unfold py_in. rewrite existsb_exists. split.
  - intros (y & Hy & He). apply String.eqb_eq in He. now subst.
  - intros H. exists x. split; [assumption | apply String.eqb_refl].
Qed.

Lemma dict_get_set_same {A} (d : dict A) k v :
  dict_get (dict_set d k v) k = Some v.
Proof.
  induction d as [|[k' v'] d IH]; simpl.
  - now rewrite String.eqb_refl.
  - destruct (String.eqb k' k) eqn:E; simpl; rewrite E; auto.
Qed.

Lemma dict_get_set_other {A} (d : dict A) k k' v :
  k <> k' -> dict_get (dict_set d k v) k' = dict_get d k'.
Proof.
  intros Hne. induction d as [|[k0 v0] d IH]; simpl.
  - destruct (String.eqb k k') eqn:E; [apply String.eqb_eq in E; contradiction | reflexivity].
  - destruct (String.eqb k0 k) eqn:E; simpl.
    + apply String.eqb_eq in E. subst k0.
      destruct (String.eqb k k') eqn:E'; [apply String.eqb_eq in E'; contradiction | reflexivity].
    + now rewrite IH.
Qed.

Lemma dict_get_in {A} (d : dict A) k v :
  dict_get d k = Some v -> In (k, v) d.
Proof.
  induction d as [|[k' v'] d IH]; simpl; [discriminate|].
  destruct (String.eqb k' k) eqn:E.
  - apply String.eqb_eq in E. intros [= ->]. subst. now left.
  - intros H. right. auto.
Qed.

Lemma dict_in_get {A} (d : dict A) k v :
  dict_wf d -> In (k, v) d -> dict_get d k = Some v.
Proof.
  unfold dict_wf, keys. induction d as [|[k' v'] d IH]; simpl; [tauto|].
  intros Hnd [H|H].
  - injection H as -> ->. now rewrite String.eqb_refl.
  - inversion Hnd as [|? ? Hnotin Hnd']; subst.
    destruct (String.eqb k' k) eqn:E.
    + apply String.eqb_eq in E. subst k'. exfalso. apply Hnotin.
      change k with (fst (k, v)). now apply in_map.
    + auto.
Qed.

Lemma keys_dict_set {A} (d : dict A) k v :
  In k (keys (dict_set d k v)).
Proof.
  unfold keys. induction d as [|[k' v'] d IH]; simpl; [now left|].
  destruct (String.eqb k' k) eqn:E; simpl.
  - apply String.eqb_eq in E. now left.
  - now right.
Qed.

Lemma bind_Return_inv {A B} (m : outcome A) (k : A -> outcome B) b :
  (x <- m ;; k x) = Return b -> exists a, m = Return a /\ k a = Return b.
Proof.
  destruct m as [a| |]; simpl; try discriminate. intros H. now exists a.
Qed.

(** One iteration of a [for_each] loop that returned: [Hhere] is what the
    body returned, [Hrest] what the remaining iterations did. *)
Ltac invert_iteration H :=
  apply bind_Return_inv in H as (?here & ?Hhere & H);
  apply bind_Return_inv in H as (?rest & ?Hrest & H);
  injection H as <-.

Lemma for_each_app {A B} (f : A -> outcome (list B)) xs ys :
  for_each f (xs ++ ys) =
  (l <- for_each f xs ;; r <- for_each f ys ;; Return (l ++ r)).
Proof.
  induction xs as [|x xs IH]; simpl.
  - destruct (for_each f ys); reflexivity.
  - destruct (f x) as [here| |]; simpl; try reflexivity.
    rewrite IH. destruct (for_each f xs) as [l| |]; simpl; try reflexivity.
    destruct (for_each f ys) as [r| |]; simpl; try reflexivity.
    now rewrite app_assoc.
Qed.

Lemma for_each_skip {A B} (f : A -> outcome (list B)) x xs :
  f x = Return [] -> for_each f (x :: xs) = for_each f xs.
Proof.
  intros H. simpl. rewrite H. simpl. destruct (for_each f xs); reflexivity.
Qed.

Lemma for_each_ext {A B} (f g : A -> outcome (list B)) xs :
  (forall x, In x xs -> f x = g x) -> for_each f xs = for_each g xs.
Proof.
  induction xs as [|x xs IH]; intros H; simpl; [reflexivity|].
  rewrite (H x (or_introl eq_refl)), IH; [reflexivity|].
  intros y Hy. apply H. now right.
Qed.

(** A loop whose every iteration returns does return. *)
Lemma for_each_returns {A B} (f : A -> outcome (list B)) xs :
  (forall x, In x xs -> exists r, f x = Return r) ->
  exists rs, for_each f xs = Return rs.
Proof.
  induction xs as [|x xs IH]; intros H; simpl.
  - now exists [].
  - destruct (H x (or_introl eq_refl)) as [r ->].
    destruct IH as [rs ->]; [intros y Hy; apply H; now right|].
    simpl. now eexists.
Qed.

(** The first iteration that raises ends the loop with its exception,
    provided the earlier ones return. *)
Lemma for_each_raises {A B} (f : A -> outcome (list B)) xs x ys e :
  (forall y, In y xs -> exists r, f y = Return r) ->
  f x = Raise e ->
  for_each f (xs ++ x :: ys) = Raise e.
Proof.
  intros Hxs Hx. rewrite for_each_app.
  destruct (for_each_returns f xs Hxs) as [rs ->]. simpl. now rewrite Hx.
Qed.

(** ** Facts about the yarn runner *)

(** *** Name splitting *)

Lemma split_nonempty sep s : split sep s <> [].
Proof.
  destruct s as [|c s]; simpl; [discriminate|].
  destruct (Ascii.eqb c sep); [discriminate|].
  destruct (split sep s); discriminate.
Qed.

Lemma split_at_first sep a b :
  occurs sep a = false ->
  split sep (a ++ String sep b)%string = a :: split sep b.
Proof.
  induction a as [|c a IH]; simpl; intros H.
  - now rewrite Ascii.eqb_refl.
  - apply orb_false_iff in H as [Hc Ha]. rewrite Hc, (IH Ha). reflexivity.
Qed.

(** An unscoped [name@rest] yields [name], whatever follows the first [@]. *)
Lemma get_name_unscoped name rest :
  occurs "@" name = false -> name <> EmptyString ->
  get_name (name ++ "@" ++ rest)%string = Return name.
Proof.
  intros Hno Hne. unfold get_name.
  change ("@" ++ rest)%string with (String "@" rest).
  rewrite (split_at_first _ _ _ Hno).
  destruct (split "@" rest) as [|h t] eqn:E; [now apply split_nonempty in E|].
  destruct name as [|c name]; [contradiction|].
  simpl in *. apply orb_false_iff in Hno as [-> _]. reflexivity.
Qed.

(** A scoped [@scope/pkg@rest] yields [@scope/pkg]. *)
Lemma get_name_scoped scoped rest :
  occurs "@" scoped = false ->
  get_name ("@" ++ scoped ++ "@" ++ rest)%string = Return ("@" ++ scoped)%string.
Proof.
  intros Hno. unfold get_name.
  change ("@" ++ scoped ++ "@" ++ rest)%string
    with (String "@" (scoped ++ String "@" rest)).
  cbn [split startswith]. rewrite Ascii.eqb_refl.
  rewrite (split_at_first _ _ _ Hno).
  destruct (split "@" rest) as [|h t] eqn:E; [now apply split_nonempty in E|].
  reflexivity.
Qed.

(** C7. [get_name] special-cases scoped names: ["@scope/pkg@1.2.3"] yields
    the name ["@scope/pkg"] and ["pkg@1.2.3"] yields ["pkg"]; the flat tree
    takes the version of either from the version map, looked up under the
    whole string. *)
Theorem get_name_special_cases_scoped_names :
  get_name "@scope/pkg@1.2.3" = Return "@scope/pkg"
  /\ get_name "pkg@1.2.3" = Return "pkg"
  /\ forall package_map : package_map,
       get_flat_tree [Listing (Some "@scope/pkg@1.2.3") [];
                      Listing (Some "pkg@1.2.3") []] package_map
       = Return [("@scope/pkg@1.2.3",
                  Flat (Some "@scope/pkg")
                       (pm_get package_map "@scope/pkg@1.2.3") []);
                 ("pkg@1.2.3",
                  Flat (Some "pkg") (pm_get package_map "pkg@1.2.3") [])].
Proof.
  split; [|split].
  - exact (get_name_scoped "scope/pkg" "1.2.3" eq_refl).
  - apply (get_name_unscoped "pkg" "1.2.3"); [reflexivity | discriminate].
  - intros pm. reflexivity.
Qed.

(** *** The version map *)

Lemma dict_set_fresh {A} (d : dict A) k v :
  ~ In k (keys d) -> dict_set d k v = d ++ [(k, v)].
Proof.
  unfold keys. induction d as [|[k' v'] d IH]; simpl; intros H; [reflexivity|].
  destruct (String.eqb k' k) eqn:E.
  - apply String.eqb_eq in E. tauto.
  - rewrite IH; tauto.
Qed.

Lemma parse_yarn_lock_fold (o : dict lock_entry) (acc : package_map) :
  NoDup (keys acc ++ keys o) ->
  fold_left
    (fun package_map kd =>
       let '(key, dependency) := kd in
       dict_set package_map key (le_version dependency)) o acc
  = acc ++ map locked o.
Proof.
  revert acc. induction o as [|[k e] o IH]; intros acc Hnd; simpl.
  - now rewrite app_nil_r.
  - rewrite dict_set_fresh.
    + rewrite IH.
      * rewrite <- app_assoc. reflexivity.
      * unfold keys in *. rewrite map_app. simpl. rewrite <- app_assoc. exact Hnd.
    + apply NoDup_remove_2 in Hnd. intros Hin. apply Hnd.
      apply in_or_app. now left.
Qed.

(** On a lock dict the version map is the dict itself, each record replaced
    by its [version] field or by [None]. *)
Lemma parse_yarn_lock_wf lock :
  dict_wf (lock_object lock) ->
  parse_yarn_lock lock = map locked (lock_object lock).
Proof.
  intros Hwf. unfold parse_yarn_lock. fold (lock_object lock).
  now rewrite parse_yarn_lock_fold.
Qed.

Lemma keys_map_locked o : keys (map locked o) = keys o.
Proof.
  unfold keys. rewrite map_map. apply map_ext. now intros [k e].
Qed.

(** C5 fails as stated: the key of an entry without a version is in the map. *)
Lemma parse_yarn_lock_keeps_unresolved_key :
  ~ skips_unresolved_entries (LockJson (Some [("a@^1.0.0", LockEntry None)])).
Proof.
  intros H.
  apply (H "a@^1.0.0" (LockEntry None)); simpl; auto.
Qed.

(** C5, amended.  For an entry of the lock data without the resolved-version
    field, [parse_yarn_lock] records the entry's key with the value [None];
    looking the key up with [.get] then yields [None], as it does for a key
    that is not in the map.  The function is total: nothing is raised. *)
Theorem parse_yarn_lock_maps_unresolved_to_None lock key entry :
  dict_wf (lock_object lock) ->
  In (key, entry) (lock_object lock) ->
  le_version entry = None ->
  In key (keys (parse_yarn_lock lock))
  /\ dict_get (parse_yarn_lock lock) key = Some None
  /\ pm_get (parse_yarn_lock lock) key = None.
Proof.
  intros Hwf Hin Hv.
  rewrite (parse_yarn_lock_wf _ Hwf).
  assert (Hget : dict_get (map locked (lock_object lock)) key = Some None).
  { apply dict_in_get.
    - unfold dict_wf. now rewrite keys_map_locked.
    - rewrite <- Hv. change (key, le_version entry) with (locked (key, entry)).
      now apply in_map. }
  split; [|split].
  - rewrite keys_map_locked. unfold keys.
    change key with (fst (key, entry)). now apply in_map.
  - exact Hget.
  - unfold pm_get. now rewrite Hget.
Qed.

Lemma parse_yarn_lock_maps_unresolved_to_None_witness :
  In "a@^1.0.0"
     (keys (parse_yarn_lock
              (LockJson (Some [("a@^1.0.0", LockEntry None);
                               ("b@2.0.0", LockEntry (Some "2.0.0"))]))))
  /\ dict_get (parse_yarn_lock
                 (LockJson (Some [("a@^1.0.0", LockEntry None);
                                  ("b@2.0.0", LockEntry (Some "2.0.0"))])))
              "a@^1.0.0" = Some None
  /\ pm_get (parse_yarn_lock
               (LockJson (Some [("a@^1.0.0", LockEntry None);
                                ("b@2.0.0", LockEntry (Some "2.0.0"))])))
            "a@^1.0.0" = None.
Proof.
  apply (parse_yarn_lock_maps_unresolved_to_None
           (LockJson (Some [("a@^1.0.0", LockEntry None);
                            ("b@2.0.0", LockEntry (Some "2.0.0"))]))
           "a@^1.0.0" (LockEntry None)).
  - unfold dict_wf. simpl. repeat constructor; simpl; intuition discriminate.
  - simpl. now left.
  - reflexivity.
Defined.

(** *** The ancestor walk *)

Lemma pnode_induction (P : pnode -> Prop) :
  (forall n v d, P (PNode n v d None)) ->
  (forall n v d p, P p -> P (PNode n v d (Some p))) ->
  forall p, P p.
Proof.
  intros Hroot Hstep. fix IH 1. intros [n v d [p|]].
  - apply Hstep, IH.
  - apply Hroot.
Qed.

Lemma walk_names key p : forall dep names,
  snd (walk key p dep names) = names ++ ancestor_names p.
Proof.
  induction p as [n v d | n v d p IH] using pnode_induction; intros dep names; simpl.
  - now rewrite app_nil_r.
  - rewrite IH, <- app_assoc. reflexivity.
Qed.

Lemma adopt_found d full : adopt (Some d) full = Some d.
Proof. reflexivity. Qed.

Lemma walk_keeps_found key p : forall d names,
  fst (walk key p (Some d) names) = Some d.
Proof.
  induction p as [n v d0 | n v d0 p IH] using pnode_induction; intros d names; simpl.
  - reflexivity.
  - apply IH.
Qed.

(** The loop of the source and the search of the specification find the
    same record. *)
Lemma walk_finds_closest key p : forall names,
  fst (walk key p None names) = closest_full_record key p.
Proof.
  induction p as [n v d | n v d p IH] using pnode_induction; intros names; simpl.
  - destruct (find_full_dependency d key); reflexivity.
  - destruct (find_full_dependency d key) as [f|]; simpl.
    + apply walk_keeps_found.
    + apply IH.
Qed.

Lemma removelast_ancestor_names p :
  removelast (pn_name p :: ancestor_names p) = path_names p.
Proof.
  induction p as [n v d | n v d p IH] using pnode_induction.
  - reflexivity.
  - change (removelast (n :: pn_name p :: ancestor_names p)
            = n :: path_names p).
    rewrite <- IH. reflexivity.
Qed.

Lemma drop_last_ancestor_names p :
  drop_last (ancestor_names p) = guard_names p.
Proof.
  unfold drop_last, guard_names. destruct p as [n v d [q|]]; simpl.
  - apply removelast_ancestor_names.
  - reflexivity.
Qed.

Lemma find_full_dependency_Some d key f :
  find_full_dependency d key = Some f ->
  dict_get d key = Some f /\ flat_dependencies f <> [].
Proof.
  unfold find_full_dependency. destruct d as [|kv d]; [discriminate|].
  destruct (dict_get (kv :: d) key) as [g|]; [|discriminate].
  destruct (flat_dependencies g) eqn:E; [discriminate|].
  intros [= ->]. split; [reflexivity|]. rewrite E. discriminate.
Qed.

Lemma closest_full_record_nonempty key p f :
  closest_full_record key p = Some f -> flat_dependencies f <> [].
Proof.
  induction p as [n v d | n v d p IH] using pnode_induction; simpl.
  - destruct (find_full_dependency d key) eqn:E; [|discriminate].
    intros [= <-]. now apply find_full_dependency_Some in E.
  - destruct (find_full_dependency d key) eqn:E; [|exact IH].
    intros [= <-]. now apply find_full_dependency_Some in E.
Qed.

(** *** One iteration of the expansion loop *)

Lemma get_node_from_dependency_usable r parent :
  get_node_from_dependency r parent =
  if usable r
  then Some (PNode (fmt (flat_name r)) (flat_version r)
                   (flat_dependencies r) (Some parent))
  else None.
Proof.
  unfold get_node_from_dependency, usable.
  destruct (truthy (flat_version r)), (truthy (flat_name r)); reflexivity.
Qed.

(** The loop body in closed form: what is searched, what is adopted, what
    is recursed into. *)
Lemma expand_eq recurse parent r :
  expand recurse parent r =
  if usable r then
    let nm := fmt (flat_name r) in
    let ver := flat_version r in
    children <-
      (if py_in nm (guard_names parent) then Return []
       else match closest_full_record (at_key nm (fmt ver)) parent with
            | Some auth =>
                recurse auth (PNode nm ver (flat_dependencies auth) (Some parent))
            | None => Return []
            end) ;;
    Return [AnyNode nm ver children]
  else Return [].
Proof.
  unfold expand. rewrite get_node_from_dependency_usable.
  destruct (usable r); [|reflexivity].
  cbn [pn_name pn_version].
  destruct (walk (at_key (fmt (flat_name r)) (fmt (flat_version r))) parent None [])
    as [dep names] eqn:W.
  pose proof (walk_finds_closest (at_key (fmt (flat_name r)) (fmt (flat_version r)))
                parent []) as Hd.
  pose proof (walk_names (at_key (fmt (flat_name r)) (fmt (flat_version r)))
                parent None []) as Hn.
  rewrite W in Hd, Hn. simpl in Hd, Hn. subst dep names.
  rewrite drop_last_ancestor_names.
  destruct (closest_full_record _ parent) as [auth|]; reflexivity.
Qed.

Lemma expand_unusable recurse parent r :
  usable r = false -> expand recurse parent r = Return [].
Proof. intros H. now rewrite expand_eq, H. Qed.

(** *** The expansion loop *)

Lemma for_each_expand_ids recurse parent rs : forall kids,
  for_each (expand recurse parent) rs = Return kids ->
  map node_id kids = map flat_id (filter usable rs).
Proof.
  induction rs as [|r rs IH]; simpl; intros kids H.
  - now injection H as <-.
  - invert_iteration H.
    rewrite map_app, (IH _ Hrest). rewrite expand_eq in Hhere.
    destruct (usable r).
    + apply bind_Return_inv in Hhere as (c & _ & Hc). now injection Hc as <-.
    + now injection Hhere as <-.
Qed.

(** The children a call attaches are the usable records of the record it
    was given, one node each, in order. *)
Lemma add_nested_dependencies_ids fuel dependency parent kids :
  add_nested_dependencies fuel dependency parent = Return kids ->
  map node_id kids = child_set_ids (flat_dependencies dependency).
Proof.
  destruct fuel as [|fuel]; simpl; [discriminate|].
  apply for_each_expand_ids.
Qed.

(** Within one call, a record of the child-set without a usable name or
    version gives no node: [get_node_from_dependency] yields [None] rather
    than raising, the loop attaches what it attaches for the child-set
    without the record, and every node it attaches carries a usable name
    and version. *)
Lemma unusable_record_is_skipped fuel n v d1 key r d2 parent :
  usable r = false ->
  get_node_from_dependency r parent = None
  /\ add_nested_dependencies fuel (Flat n v (d1 ++ (key, r) :: d2)) parent
     = add_nested_dependencies fuel (Flat n v (d1 ++ d2)) parent
  /\ forall kids,
       add_nested_dependencies fuel (Flat n v (d1 ++ (key, r) :: d2)) parent
       = Return kids ->
       Forall (fun c => truthy (Some (node_name c)) = true
                        /\ truthy (node_version c) = true) kids.
Proof.
  intros Hr. split; [|split].
  - now rewrite get_node_from_dependency_usable, Hr.
  - destruct fuel as [|fuel]; simpl; [reflexivity|].
    unfold values. rewrite !map_app, !for_each_app. simpl map.
    rewrite for_each_skip; [reflexivity|]. now apply expand_unusable.
  - intros kids H. apply add_nested_dependencies_ids in H.
    unfold child_set_ids in H.
    assert (G : Forall (fun id : string * option string =>
                          truthy (Some (fst id)) = true /\ truthy (snd id) = true)
                       (map node_id kids)).
    { rewrite H. apply Forall_forall. intros id Hid.
      apply in_map_iff in Hid as (f & <- & Hf).
      apply filter_In in Hf as [_ Hf]. unfold usable in Hf.
      apply andb_true_iff in Hf as [Hv Hn]. split; [|exact Hv].
      unfold flat_id. simpl.
      destruct (flat_name f) as [[|c s]|]; simpl in *; congruence. }
    rewrite Forall_map in G. exact G.
Qed.

Lemma for_each_expand_reconciled fuel parent rs : forall kids,
  for_each (expand (add_nested_dependencies fuel) parent) rs = Return kids ->
  Forall2 (reconciled parent) (filter usable rs) kids.
Proof.
  induction rs as [|r rs IH]; simpl; intros kids H.
  - injection H as <-. constructor.
  - invert_iteration H.
    specialize (IH _ Hrest). rewrite expand_eq in Hhere.
    destruct (usable r); [|injection Hhere as <-; exact IH].
    cbn zeta in Hhere.
    apply bind_Return_inv in Hhere as (children & Hch & Hc). injection Hc as <-.
    simpl. constructor; [|exact IH].
    split; [reflexivity|]. cbn [node_name node_version node_children].
    destruct (closest_full_record _ parent) as [auth|] eqn:Hauth.
    + split; [now apply closest_full_record_nonempty in Hauth|].
      destruct (py_in (fmt (flat_name r)) (guard_names parent)).
      * now injection Hch as <-.
      * split; [now apply add_nested_dependencies_ids in Hch | now exists fuel].
    + destruct (py_in (fmt (flat_name r)) (guard_names parent));
        now injection Hch as <-.
Qed.

(** C1. For a node the expansion loop builds, the loop of the source finds
    what the search of the specification finds: the entry for the node's
    [name@version], with a non-empty child-set, recorded by the closest
    ancestor, from the parent outward to the root.  The node adopts the
    child-set of that record, and when it is expanded its children are the
    nodes of that child-set, one for each usable record, in order. *)
Theorem children_match_authoritative_child_set fuel dependency parent kids :
  add_nested_dependencies fuel dependency parent = Return kids ->
  (forall key, fst (walk key parent None []) = closest_full_record key parent)
  /\ Forall2 (reconciled parent)
             (filter usable (values (flat_dependencies dependency))) kids.
Proof.
  intros H. split.
  - intros key. apply walk_finds_closest.
  - destruct fuel as [|fuel]; simpl in H; [discriminate|].
    now apply for_each_expand_reconciled in H.
Qed.

(** *** The cycle guard *)

Lemma for_each_expand_guarded recurse parent rs :
  (forall d p kids, recurse d p = Return kids ->
                    forallb (guarded_from (path_names p)) kids = true) ->
  forall kids,
    for_each (expand recurse parent) rs = Return kids ->
    forallb (guarded_from (path_names parent)) kids = true.
Proof.
  intros Hrec. induction rs as [|r rs IH]; simpl; intros kids H.
  - now injection H as <-.
  - invert_iteration H.
    rewrite forallb_app, (IH _ Hrest), andb_true_r.
    rewrite expand_eq in Hhere.
    destruct (usable r); [|now injection Hhere as <-].
    cbn zeta in Hhere.
    apply bind_Return_inv in Hhere as (children & Hch & Hc). injection Hc as <-.
    cbn [forallb guarded_from]. rewrite andb_true_r.
    destruct children as [|c children]; [reflexivity|].
    fold (guard_names parent).
    destruct (py_in (fmt (flat_name r)) (guard_names parent)); [discriminate|].
    destruct (closest_full_record _ parent) as [auth|]; [|discriminate].
    apply Hrec in Hch. exact Hch.
Qed.

(** Below any parent, a node that received children does not carry the
    name of an ancestor beyond that parent, the root apart. *)
Lemma add_nested_dependencies_guarded fuel : forall dependency parent kids,
  add_nested_dependencies fuel dependency parent = Return kids ->
  forallb (guarded_from (path_names parent)) kids = true.
Proof.
  induction fuel as [|fuel IH]; simpl; intros dependency parent kids H.
  - discriminate.
  - eapply for_each_expand_guarded; eauto.
Qed.

(** A usable record whose name the guard list holds stays in the tree as a
    node without children. *)
Lemma for_each_expand_leaf recurse parent rs r : forall kids,
  for_each (expand recurse parent) rs = Return kids ->
  In r rs -> usable r = true ->
  In (fmt (flat_name r)) (guard_names parent) ->
  In (AnyNode (fmt (flat_name r)) (flat_version r) []) kids.
Proof.
  induction rs as [|r0 rs IH]; simpl; intros kids H Hin Hu Hg; [contradiction|].
  invert_iteration H.
  apply in_or_app. destruct Hin as [->|Hin].
  - left. rewrite expand_eq, Hu in Hhere. cbn zeta in Hhere.
    apply py_in_spec in Hg. rewrite Hg in Hhere. simpl in Hhere.
    injection Hhere as <-. now left.
  - right. eapply IH; eauto.
Qed.

(** *** Termination *)

Lemma names_of_entry (d : dict flat) k f :
  In (k, f) d -> incl (names_of f) (names_in d).
Proof.
  intros Hin x Hx. unfold names_in. apply in_flat_map.
  exists (k, f). split; assumption.
Qed.

Lemma names_in_dependencies f :
  incl (names_in (flat_dependencies f)) (names_of f).
Proof.
  destruct f as [n v d]. intros x Hx. simpl. apply in_or_app. now right.
Qed.

Lemma closest_full_record_within U key p auth :
  scopes_within U p ->
  closest_full_record key p = Some auth ->
  incl (names_of auth) U.
Proof.
  induction p as [n v d | n v d p IH] using pnode_induction; simpl;
    intros [Hd Hp] H.
  - destruct (find_full_dependency d key) as [f|] eqn:E; [|discriminate].
    injection H as ->. apply find_full_dependency_Some in E as [E _].
    apply dict_get_in in E. eapply incl_tran; [eapply names_of_entry; eauto | exact Hd].
  - destruct (find_full_dependency d key) as [f|] eqn:E.
    + injection H as ->. apply find_full_dependency_Some in E as [E _].
      apply dict_get_in in E.
      eapply incl_tran; [eapply names_of_entry; eauto | exact Hd].
    + auto.
Qed.

Lemma usable_name_recorded dependency r :
  In r (values (flat_dependencies dependency)) ->
  usable r = true ->
  In (fmt (flat_name r)) (names_of dependency).
Proof.
  intros Hin Hu. apply names_in_dependencies.
  unfold values in Hin. apply in_map_iff in Hin as ([k f] & <- & Hin).
  eapply names_of_entry; [exact Hin|]. simpl.
  unfold usable in Hu. apply andb_true_iff in Hu as [_ Hn].
  destruct f as [[nm|] v d]; simpl in *; [now left | discriminate].
Qed.

Lemma fresh_count_le U L : fresh_count U L <= List.length U.
Proof. apply filter_length_le. Qed.

Lemma fresh_count_cons_U u U L :
  fresh_count (u :: U) L = (if py_in u L then 0 else 1) + fresh_count U L.
Proof. unfold fresh_count. simpl. destruct (py_in u L); reflexivity. Qed.

Lemma py_in_cons u c L : py_in u (c :: L) = String.eqb u c || py_in u L.
Proof. reflexivity. Qed.

Lemma fresh_count_cons_le U c L : fresh_count U (c :: L) <= fresh_count U L.
Proof.
  induction U as [|u U IH]; [apply Nat.le_refl|].
  rewrite !fresh_count_cons_U, py_in_cons.
  destruct (String.eqb u c), (py_in u L); simpl; lia.
Qed.

Lemma fresh_count_cons_lt U c L :
  In c U -> py_in c L = false -> fresh_count U (c :: L) < fresh_count U L.
Proof.
  intros Hin Hc. induction U as [|u U IH]; [contradiction|].
  pose proof (fresh_count_cons_le U c L) as Hle.
  rewrite !fresh_count_cons_U, py_in_cons.
  destruct (String.eqb u c) eqn:E.
  - apply String.eqb_eq in E. subst u. rewrite Hc. simpl. lia.
  - destruct Hin as [->|Hin]; [now rewrite String.eqb_refl in E|].
    specialize (IH Hin). destruct (py_in u L); simpl; lia.
Qed.

Lemma fresh_count_cons_same U c L :
  py_in c L = true -> fresh_count U (c :: L) = fresh_count U L.
Proof.
  intros Hc. induction U as [|u U IH]; [reflexivity|].
  rewrite !fresh_count_cons_U, py_in_cons, IH.
  destruct (String.eqb u c) eqn:E; [|reflexivity].
  apply String.eqb_eq in E. subst u. now rewrite Hc.
Qed.

(** Attaching a node whose name passed the guard uses up budget. *)
Lemma depth_budget_decreases U L c :
  In c U -> py_in c (tl L) = false ->
  depth_budget U (c :: L) < depth_budget U L.
Proof.
  intros Hin Hg. unfold depth_budget. destruct L as [|x T].
  - pose proof (fresh_count_cons_lt U c [] Hin eq_refl). simpl. lia.
  - simpl in Hg. cbn [py_in existsb].
    destruct (String.eqb c x) eqn:E.
    + apply String.eqb_eq in E. subst x. cbn [orb].
      rewrite Hg.
      rewrite (fresh_count_cons_same U c (c :: T)); [lia|].
      simpl. now rewrite String.eqb_refl.
    + cbn [orb]. fold (py_in c T). rewrite Hg.
      assert (Hc : py_in c (x :: T) = false)
        by (simpl; rewrite E; exact Hg).
      pose proof (fresh_count_cons_lt U c (x :: T) Hin Hc).
      destruct (py_in x T); lia.
Qed.

(** With fuel above the budget of its parent, a call returns. *)
Lemma add_nested_dependencies_returns U fuel : forall dependency parent,
  incl (names_of dependency) U ->
  scopes_within U parent ->
  depth_budget U (path_names parent) < fuel ->
  exists kids, add_nested_dependencies fuel dependency parent = Return kids.
Proof.
  induction fuel as [|fuel IH]; intros dependency parent Hdep Hsc Hfuel; [lia|].
  simpl. apply for_each_returns. intros r Hr. rewrite expand_eq.
  destruct (usable r) eqn:Hu; [|now eexists]. cbn zeta.
  destruct (py_in (fmt (flat_name r)) (guard_names parent)) eqn:Hg;
    [simpl; now eexists|].
  destruct (closest_full_record _ parent) as [auth|] eqn:Hauth;
    [|simpl; now eexists].
  pose proof (closest_full_record_within _ _ _ _ Hsc Hauth) as Hwithin.
  destruct (IH auth (PNode (fmt (flat_name r)) (flat_version r)
                           (flat_dependencies auth) (Some parent)))
    as [children ->].
  - exact Hwithin.
  - simpl. split; [|exact Hsc].
    eapply incl_tran; [apply names_in_dependencies | exact Hwithin].
  - cbn [path_names].
    assert (In (fmt (flat_name r)) U)
      by (apply Hdep; now apply usable_name_recorded).
    pose proof (depth_budget_decreases U (path_names parent) _ H Hg). lia.
  - simpl. now eexists.
Qed.

Lemma for_each_mono {A B} (f g : A -> outcome (list B)) xs : forall rs,
  (forall x r, In x xs -> f x = Return r -> g x = Return r) ->
  for_each f xs = Return rs -> for_each g xs = Return rs.
Proof.
  induction xs as [|x xs IH]; simpl; intros rs Hfg H; [exact H|].
  apply bind_Return_inv in H as (here & Hhere & H).
  apply bind_Return_inv in H as (rest & Hrest & H).
  rewrite (Hfg x here (or_introl eq_refl) Hhere). simpl.
  rewrite (IH rest); [exact H | | exact Hrest].
  intros y r Hy. apply Hfg. now right.
Qed.

Lemma expand_mono (rec rec' : flat -> pnode -> outcome (list node)) parent r res :
  (forall d p kids, rec d p = Return kids -> rec' d p = Return kids) ->
  expand rec parent r = Return res -> expand rec' parent r = Return res.
Proof.
  intros Hrec. rewrite !expand_eq. destruct (usable r); [|exact (fun H => H)].
  cbn zeta.
  destruct (py_in (fmt (flat_name r)) (guard_names parent)); [exact (fun H => H)|].
  destruct (closest_full_record _ parent) as [auth|]; [|exact (fun H => H)].
  intros H. apply bind_Return_inv in H as (children & Hch & H).
  now rewrite (Hrec _ _ _ Hch).
Qed.

(** More fuel does not change what a call returns. *)
Lemma add_nested_dependencies_more_fuel fuel : forall fuel' dependency parent kids,
  fuel <= fuel' ->
  add_nested_dependencies fuel dependency parent = Return kids ->
  add_nested_dependencies fuel' dependency parent = Return kids.
Proof.
  induction fuel as [|fuel IH]; intros fuel' dependency parent kids Hle H;
    [discriminate|].
  destruct fuel' as [|fuel']; [lia|]. simpl in *.
  eapply for_each_mono; [|exact H].
  intros r res _. apply expand_mono. intros d p k. apply IH. lia.
Qed.

(** *** The whole reconciliation *)

Lemma fuel_bound_suffices flat_tree n v d root_n root_v :
  incl (names_in d) (names_in flat_tree) ->
  depth_budget (names_in flat_tree)
    (path_names (PNode n v d (Some (PNode root_n root_v flat_tree None))))
  < fuel_bound flat_tree.
Proof.
  intros _. unfold depth_budget, fuel_bound. cbn [path_names py_in existsb].
  pose proof (fresh_count_le (names_in flat_tree) [n]). lia.
Qed.

(** What one manifest entry contributes, at the bound and above it. *)
Lemma top_level_settled flat_tree package_map root_n root_v item fuel :
  fuel_bound flat_tree <= fuel ->
  let root := PNode root_n root_v flat_tree None in
  top_level fuel flat_tree package_map root item
  = top_level (fuel_bound flat_tree) flat_tree package_map root item
  /\ ((exists t, top_level (fuel_bound flat_tree) flat_tree package_map root item
                 = Return [t])
      \/ top_level (fuel_bound flat_tree) flat_tree package_map root item
         = Raise AttributeError).
Proof.
  intros Hfuel root. destruct item as [dep_name dep_version]. unfold top_level.
  destruct (dict_get flat_tree _) as [dependency|] eqn:Hget; [|now split; [|right]].
  apply dict_get_in in Hget.
  pose proof (names_of_entry _ _ _ Hget) as Hdep.
  assert (Hd : incl (names_in (flat_dependencies dependency)) (names_in flat_tree))
    by (eapply incl_tran; [apply names_in_dependencies | exact Hdep]).
  destruct (add_nested_dependencies_returns (names_in flat_tree)
              (fuel_bound flat_tree) dependency
              (PNode dep_name (flat_version dependency)
                     (flat_dependencies dependency) (Some root)))
    as [kids Hkids].
  - exact Hdep.
  - simpl. split; [exact Hd | split; [apply incl_refl | exact I]].
  - now apply fuel_bound_suffices.
  - rewrite Hkids.
    rewrite (add_nested_dependencies_more_fuel _ _ _ _ _ Hfuel Hkids).
    split; [reflexivity | left; simpl; now eexists].
Qed.

Lemma for_each_settled {A B} (f : A -> outcome (list B)) xs :
  (forall x, In x xs -> (exists r, f x = Return r) \/ f x = Raise AttributeError) ->
  (exists rs, for_each f xs = Return rs) \/ for_each f xs = Raise AttributeError.
Proof.
  induction xs as [|x xs IH]; intros H; simpl; [left; now eexists|].
  destruct (H x (or_introl eq_refl)) as [[r ->]| ->]; [|now right].
  destruct IH as [[rs ->]| ->]; [intros y Hy; apply H; now right| |]; simpl.
  - left. now eexists.
  - now right.
Qed.

(** [get_dependency_tree] always comes to an end: it returns a tree or
    raises [AttributeError]; no amount of further fuel changes the outcome. *)
Lemma get_dependency_tree_settled flat_tree package_json package_map :
  ((exists tree, get_dependency_tree flat_tree package_json package_map = Return tree)
   \/ get_dependency_tree flat_tree package_json package_map = Raise AttributeError)
  /\ forall fuel, fuel_bound flat_tree <= fuel ->
       get_dependency_tree_fuel fuel flat_tree package_json package_map
       = get_dependency_tree flat_tree package_json package_map.
Proof.
  unfold get_dependency_tree, get_dependency_tree_fuel. split.
  - destruct (for_each_settled
                (top_level (fuel_bound flat_tree) flat_tree package_map
                   (PNode (root_name package_json) (pj_version package_json)
                          flat_tree None))
                (manifest package_json)) as [[rs ->]| ->].
    + intros item _.
      destruct (top_level_settled flat_tree package_map (root_name package_json)
                  (pj_version package_json) item _ (Nat.le_refl _))
        as [_ [[t ->]| ->]]; [left; now eexists | now right].
    + left. simpl. now eexists.
    + now right.
  - intros fuel Hfuel. f_equal. apply for_each_ext. intros item _.
    now apply top_level_settled.
Qed.

(** The special case of section 4.3: a depth-1 node takes its name from the
    manifest and its version and child-set from the record found under
    [name@resolved-version] at the root level; no search and no usability
    check take place. *)
Lemma top_level_node fuel flat_tree package_map root name range record nodes :
  dict_get flat_tree (at_key name (fmt (pm_get package_map (at_key name range))))
  = Some record ->
  top_level fuel flat_tree package_map root (name, range) = Return nodes ->
  exists children,
    nodes = [AnyNode name (flat_version record) children]
    /\ map node_id children = child_set_ids (flat_dependencies record).
Proof.
  unfold top_level. intros -> H.
  apply bind_Return_inv in H as (children & Hch & H). injection H as <-.
  exists children. split; [reflexivity|].
  now apply add_nested_dependencies_ids in Hch.
Qed.

Lemma for_each_Return_all {A B} (f : A -> outcome (list B)) xs : forall rs,
  for_each f xs = Return rs -> forall x, In x xs -> exists r, f x = Return r.
Proof.
  induction xs as [|x xs IH]; simpl; intros rs H y Hy; [contradiction|].
  apply bind_Return_inv in H as (here & Hhere & H).
  apply bind_Return_inv in H as (rest & Hrest & _).
  destruct Hy as [<-|Hy]; eauto.
Qed.

Lemma for_each_forallb {A B} (f : A -> outcome (list B)) (P : B -> bool) xs :
  (forall x r, f x = Return r -> forallb P r = true) ->
  forall rs, for_each f xs = Return rs -> forallb P rs = true.
Proof.
  intros Hf. induction xs as [|x xs IH]; simpl; intros rs H.
  - now injection H as <-.
  - invert_iteration H.
    rewrite forallb_app, (Hf _ _ Hhere), (IH _ Hrest). reflexivity.
Qed.

(** The scenario of section 8 in full: the second [x] is a leaf. *)
Example cycle_scenario_tree :
  get_dependency_tree Scenario.cycle_flat_tree Scenario.cycle_package_json
    Scenario.cycle_package_map
  = Return (AnyNode "project" (Some "0.1.0")
              [AnyNode "x" (Some "1.0.0")
                 [AnyNode "y" (Some "1.0.0")
                    [AnyNode "x" (Some "1.0.0") []]]]).
Proof. reflexivity. Qed.

(** A tree in which a re-encountered [x] had been expanded again is not
    [guarded]; the chain of section 8 is [acyclic]. *)
Example guarded_rejects_reexpansion :
  guarded (AnyNode "project" None
             [AnyNode "x" (Some "1.0.0")
                [AnyNode "y" (Some "1.0.0")
                   [AnyNode "x" (Some "1.0.0")
                      [AnyNode "y" (Some "1.0.0") []]]]]) = false
  /\ acyclic (AnyNode "project" (Some "0.1.0")
                [AnyNode "a" (Some "1.2.0")
                   [AnyNode "b" (Some "2.0.0")
                      [AnyNode "c" (Some "3.0.0") []]]]) = true.
Proof. split; reflexivity. Qed.

Example cycle_scenario_flat_tree :
  get_flat_tree Scenario.cycle_listing Scenario.cycle_package_map
  = Return Scenario.cycle_flat_tree.
Proof. reflexivity. Qed.

(** A package that lists itself is expanded once more: the second [a] has
    a child although its parent carries its name. *)
Example self_scenario_tree :
  get_flat_tree Scenario.self_listing Scenario.self_package_map
  = Return Scenario.self_flat_tree
  /\ get_dependency_tree Scenario.self_flat_tree Scenario.self_package_json
       Scenario.self_package_map
     = Return (AnyNode "project" (Some "0.1.0")
                 [AnyNode "a" (Some "1.0.0")
                    [AnyNode "a" (Some "1.0.0")
                       [AnyNode "a" (Some "1.0.0") []]]]).
Proof. split; reflexivity. Qed.

(** C2 fails as stated, twice over.  In the cycle scenario the leaf [x]
    carries the name of its grandparent: the guard stops the expansion of a
    node, not its creation.  In the scenario of the package that lists
    itself a node that has a child carries the name of its parent: the
    guard list leaves the parent out. *)
Lemma repeated_names_stay_in_the_tree :
  ~ no_node_named_after_ancestor Scenario.cycle_flat_tree
      Scenario.cycle_package_json Scenario.cycle_package_map
  /\ ~ no_expanded_node_named_after_ancestor Scenario.self_flat_tree
        Scenario.self_package_json Scenario.self_package_map.
Proof.
  split; intros H.
  - specialize (H _ cycle_scenario_tree). discriminate H.
  - specialize (H _ (proj2 self_scenario_tree)). discriminate H.
Qed.

(** C2, amended.  In every tree [get_dependency_tree] returns, a node that
    has children does not carry the name of any strict ancestor other than
    its parent and the root. *)
Theorem expanded_nodes_are_guarded flat_tree package_json package_map tree :
  get_dependency_tree flat_tree package_json package_map = Return tree ->
  guarded tree = true.
Proof.
  unfold get_dependency_tree, get_dependency_tree_fuel. intros H.
  apply bind_Return_inv in H as (children & Hch & H). injection H as <-.
  unfold guarded. cbn [node_children].
  eapply for_each_forallb; [|exact Hch].
  intros [dep_name dep_version] r Hr. unfold top_level in Hr.
  destruct (dict_get flat_tree _) as [dependency|]; [|discriminate].
  apply bind_Return_inv in Hr as (kids & Hkids & Hr). injection Hr as <-.
  apply add_nested_dependencies_guarded in Hkids. cbn [path_names] in Hkids.
  cbn [forallb guarded_from tl py_in existsb negb andb].
  rewrite Hkids. now destruct kids.
Qed.

Lemma expanded_nodes_are_guarded_witness :
  guarded (AnyNode "project" (Some "0.1.0")
             [AnyNode "x" (Some "1.0.0")
                [AnyNode "y" (Some "1.0.0")
                   [AnyNode "x" (Some "1.0.0") []]]]) = true.
Proof.
  apply (expanded_nodes_are_guarded Scenario.cycle_flat_tree
           Scenario.cycle_package_json Scenario.cycle_package_map).
  reflexivity.
Defined.

(** C4: the code raises where the specification promises a dead end.  A
    manifest entry whose requirement key the version map does not resolve
    is looked up in the flat tree under [name@None]; no record is found and
    reading its version raises [AttributeError]. *)
Theorem unresolved_top_level_dependency_raises
  flat_tree package_json package_map name range :
  In (name, range) (manifest package_json) ->
  pm_get package_map (at_key name range) = None ->
  dict_get flat_tree (at_key name "None") = None ->
  get_dependency_tree flat_tree package_json package_map = Raise AttributeError.
Proof.
  intros Hin Hpm Hft.
  destruct (get_dependency_tree_settled flat_tree package_json package_map)
    as [[[tree H]|H] _]; [exfalso | exact H].
  unfold get_dependency_tree, get_dependency_tree_fuel in H.
  apply bind_Return_inv in H as (children & Hch & _).
  destruct (for_each_Return_all _ _ _ Hch _ Hin) as [r Hr].
  unfold top_level in Hr. rewrite Hpm in Hr. simpl fmt in Hr.
  rewrite Hft in Hr. discriminate.
Qed.

Lemma unresolved_top_level_dependency_raises_witness :
  get_dependency_tree [] Scenario.unresolved_package_json []
  = Raise AttributeError.
Proof.
  apply (unresolved_top_level_dependency_raises
           [] Scenario.unresolved_package_json [] "a" "^1.0.0").
  - simpl. now left.
  - reflexivity.
  - reflexivity.
Defined.

Lemma children_match_authoritative_child_set_witness :
  (forall key,
     fst (walk key Scenario.chain_a None [])
     = closest_full_record key Scenario.chain_a)
  /\ Forall2 (reconciled Scenario.chain_a)
       (filter usable
          (values (flat_dependencies
                     (Flat (Some "a") (Some "1.2.0")
                           [("b@2.0.0", Scenario.leaf "b" "2.0.0")]))))
       [AnyNode "b" (Some "2.0.0") [AnyNode "c" (Some "3.0.0") []]].
Proof.
  apply (children_match_authoritative_child_set 6
           (Flat (Some "a") (Some "1.2.0")
                 [("b@2.0.0", Scenario.leaf "b" "2.0.0")])
           Scenario.chain_a
           [AnyNode "b" (Some "2.0.0") [AnyNode "c" (Some "3.0.0") []]]).
  reflexivity.
Defined.

(** The scenario of section 8 in full: [a(1.2.0) -> b(2.0.0) -> c(3.0.0)]. *)
Example chain_scenario_tree :
  get_dependency_tree Scenario.chain_flat_tree Scenario.chain_package_json
    Scenario.chain_package_map
  = Return (AnyNode "project" (Some "0.1.0")
              [AnyNode "a" (Some "1.2.0")
                 [AnyNode "b" (Some "2.0.0")
                    [AnyNode "c" (Some "3.0.0") []]]]).
Proof. reflexivity. Qed.

(** *** Occurrences of one key in several subtrees *)



(** What the reconciliation makes of the split scenario: the two [z@4.0.0]
    nodes receive different children. *)
Example split_scenario_tree :
  get_dependency_tree Scenario.split_flat_tree Scenario.split_package_json
    Scenario.split_package_map
  = Return (AnyNode "project" (Some "0.1.0")
              [AnyNode "a" (Some "1.0.0")
                 [AnyNode "z" (Some "4.0.0") [AnyNode "p" (Some "1.0.0") []]];
               AnyNode "b" (Some "1.0.0")
                 [AnyNode "z" (Some "4.0.0") [AnyNode "q" (Some "1.0.0") []]]]).
Proof. reflexivity. Qed.

(** A child list that only [a] records is out of reach below [b]. *)
Example nested_scenario_tree :
  get_dependency_tree Scenario.nested_flat_tree Scenario.split_package_json
    Scenario.split_package_map
  = Return (AnyNode "project" (Some "0.1.0")
              [AnyNode "a" (Some "1.0.0")
                 [AnyNode "z" (Some "4.0.0") [AnyNode "q" (Some "1.0.0") []]];
               AnyNode "b" (Some "1.0.0") [AnyNode "z" (Some "4.0.0") []]]).
Proof. reflexivity. Qed.

(** The section 8 scenario: both [z@4.0.0] nodes receive the children the
    root level records. *)
Example shared_scenario_tree :
  get_dependency_tree Scenario.shared_flat_tree Scenario.split_package_json
    Scenario.split_package_map
  = Return (AnyNode "project" (Some "0.1.0")
              [AnyNode "a" (Some "1.0.0")
                 [AnyNode "z" (Some "4.0.0") [AnyNode "q" (Some "1.0.0") []]];
               AnyNode "b" (Some "1.0.0")
                 [AnyNode "z" (Some "4.0.0") [AnyNode "q" (Some "1.0.0") []]]]).
Proof. reflexivity. Qed.

Example split_scenario_flat_tree :
  get_flat_tree Scenario.split_listing Scenario.split_package_map
  = Return Scenario.split_flat_tree.
Proof. reflexivity. Qed.




(** *** The annotation pass *)

Lemma node_induction (P : node -> Prop) :
  (forall name version children, Forall P children ->
                                 P (AnyNode name version children)) ->
  forall t, P t.
Proof.
  intros H. fix IH 1. intros [name version children]. apply H.
  induction children as [|c children IHc]; constructor; [apply IH | exact IHc].
Qed.

Lemma annotate_nothing t :
  Forall (fun n => lnode_license n = None) (PreOrderIter (annotate [] t)).
Proof.
  induction t as [name version children IH] using node_induction.
  simpl. constructor; [reflexivity|].
  induction IH as [|c children Hc _ IHch]; simpl; [constructor|].
  apply Forall_app. split; assumption.
Qed.

Lemma listing_induction (P : listing -> Prop) :
  (forall name children, Forall P children -> P (Listing name children)) ->
  forall l, P l.
Proof.
  intros H. fix IH 1. intros [name children]. apply H.
  induction children as [|c children IHc]; constructor; [apply IH | exact IHc].
Qed.

Lemma get_name_ends name : get_name name <> OutOfFuel.
Proof.
  unfold get_name. destruct (split "@" name) as [|a [|b rest]]; try discriminate.
  destruct (startswith "@" name); discriminate.
Qed.

Lemma get_flat_tree_from_ends package_map dependencies :
  Forall (fun d => get_flat_tree_entry package_map d <> OutOfFuel) dependencies ->
  forall flat_tree,
    get_flat_tree_from package_map dependencies flat_tree <> OutOfFuel.
Proof.
  induction 1 as [|d rest Hd _ IH]; intros flat_tree; simpl; [discriminate|].
  destruct (get_flat_tree_entry package_map d) as [kv| |];
    simpl; [apply IH | discriminate | contradiction].
Qed.

(** The loop over the children of a record is the loop of [get_flat_tree]. *)
Lemma get_flat_tree_entry_eq package_map dep_full_name children :
  get_flat_tree_entry package_map (Listing (Some dep_full_name) children)
  = (nm <- get_name dep_full_name ;;
     deps <- get_flat_tree_from package_map children [] ;;
     Return (dep_full_name,
             Flat (Some nm) (pm_get package_map dep_full_name) deps)).
Proof.
  simpl. destruct (get_name dep_full_name) as [nm| |]; simpl; try reflexivity.
  f_equal. generalize (@nil (string * flat)) as flat_tree.
  induction children as [|d rest IH]; intros flat_tree; simpl; [reflexivity|].
  destruct (get_flat_tree_entry package_map d); simpl; auto.
Qed.

Lemma get_flat_tree_entry_ends package_map dependency :
  get_flat_tree_entry package_map dependency <> OutOfFuel.
Proof.
  induction dependency as [name children IH] using listing_induction.
  destruct name as [dep_full_name|]; [|discriminate].
  rewrite get_flat_tree_entry_eq.
  pose proof (get_name_ends dep_full_name) as Hn.
  destruct (get_name dep_full_name) as [nm| |]; simpl;
    [|discriminate|contradiction].
  pose proof (get_flat_tree_from_ends package_map children IH []) as Hc.
  destruct (get_flat_tree_from package_map children []); simpl;
    [discriminate | discriminate | contradiction].
Qed.

(** The flat tree is built, or an exception is raised, whatever the listing. *)
Lemma get_flat_tree_ends dependencies package_map :
  get_flat_tree dependencies package_map <> OutOfFuel.
Proof.
  apply get_flat_tree_from_ends, Forall_forall.
  intros d _. apply get_flat_tree_entry_ends.
Qed.

(** C10. [YarnRunner.check] comes to an end on every input; whenever it
    returns, the license map it returns is empty and the license of every
    node of the returned tree, the root included, is [None]. *)
Theorem yarn_check_license_map_is_empty package_json lock yarn_list :
  check package_json lock yarn_list <> OutOfFuel
  /\ forall tree license_map,
       check package_json lock yarn_list = Return (tree, license_map) ->
       license_map = []
       /\ Forall (fun n => lnode_license n = None) (PreOrderIter tree).
Proof.
  unfold check. split.
  - set (trees := match lj_data yarn_list with
                  | Some data => match ld_trees data with Some t => t | None => [] end
                  | None => []
                  end).
    pose proof (get_flat_tree_ends trees (parse_yarn_lock lock)) as Hflat.
    destruct (get_flat_tree trees (parse_yarn_lock lock)) as [flat_tree| |];
      simpl; [|discriminate|contradiction].
    destruct (get_dependency_tree_settled flat_tree package_json
                (parse_yarn_lock lock)) as [[[dep_tree ->]| ->] _];
      discriminate.
  - intros tree license_map H.
    apply bind_Return_inv in H as (flat_tree & _ & H).
    apply bind_Return_inv in H as (dep_tree & _ & H).
    injection H as <- <-. split; [reflexivity | apply annotate_nothing].
Qed.

Lemma yarn_check_license_map_is_empty_witness :
  @nil (string * string) = []
  /\ Forall (fun n => lnode_license n = None)
       (PreOrderIter
          (LNode "project" (Some "0.1.0") None
             [LNode "a" (Some "1.2.0") None
                [LNode "b" (Some "2.0.0") None
                   [LNode "c" (Some "3.0.0") None []]]])).
Proof.
  destruct (yarn_check_license_map_is_empty Scenario.chain_package_json
              Scenario.chain_lock Scenario.chain_listing) as [_ H].
  apply H. reflexivity.
Defined.

(** [check] returns exactly when the flat tree and the dependency tree can
    be built; the annotation pass raises nothing. *)
Lemma yarn_check_returns package_json lock yarn_list flat_tree dep_tree :
  get_flat_tree
    (match lj_data yarn_list with
     | Some data => match ld_trees data with Some t => t | None => [] end
     | None => []
     end) (parse_yarn_lock lock) = Return flat_tree ->
  get_dependency_tree flat_tree package_json (parse_yarn_lock lock)
  = Return dep_tree ->
  check package_json lock yarn_list = Return (annotate [] dep_tree, []).
Proof.
  intros Hflat Htree. unfold check. rewrite Hflat. simpl. now rewrite Htree.
Qed.

(** ** Facts about the python runner *)

Section FetchFacts.

Variable str_other : Pypi.json -> string.

Local Abbreviation record := (Pypi.record str_other).
Local Abbreviation fetch_concurrent := (Pypi.fetch_concurrent str_other).
Local Abbreviation fetch_licenses := (Pypi.fetch_licenses str_other).
Local Abbreviation py_str := (Pypi.py_str str_other).

(** An undecodable body leaves the map as it is. *)
Lemma record_undecodable license_map :
  record license_map Pypi.JSONDecodeError = Return license_map.
Proof. reflexivity. Qed.

(** A decoded page either raises or binds one key to the page's license. *)
Lemma record_decoded license_map page license_map' :
  record license_map (Pypi.Decoded page) = Return license_map' ->
  exists info license,
    Pypi.get page "info" (Pypi.JObj []) = Return info
    /\ Pypi.get info "license" (Pypi.JStr "Unknown") = Return license
    /\ license_map'
       = dict_set license_map
           (at_key (py_str (field info "name")) (py_str (field info "version")))
           license.
Proof.
  unfold record, Pypi.record. intros H.
  apply bind_Return_inv in H as (info & Hinfo & H).
  apply bind_Return_inv in H as (license & Hlic & H).
  exists info, license. split; [exact Hinfo | split; [exact Hlic|]].
  destruct info; try discriminate. simpl in H. now injection H as <-.
Qed.

Lemma fetch_concurrent_app results1 results2 : forall license_map,
  fetch_concurrent (results1 ++ results2) license_map
  = (m <- fetch_concurrent results1 license_map ;; fetch_concurrent results2 m).
Proof.
  induction results1 as [|r rs IH]; intros license_map; simpl; [reflexivity|].
  destruct (Pypi.record str_other license_map r) as [m| |]; simpl;
    [apply IH | reflexivity | reflexivity].
Qed.

(** Every binding of the returned map was there at the start or was
    written for one of the decoded pages. *)
Lemma fetch_concurrent_provenance results : forall license_map final key value,
  fetch_concurrent results license_map = Return final ->
  dict_get final key = Some value ->
  dict_get license_map key = Some value
  \/ exists page info,
       In (Pypi.Decoded page) results
       /\ Pypi.get page "info" (Pypi.JObj []) = Return info
       /\ key = at_key (py_str (field info "name")) (py_str (field info "version"))
       /\ Pypi.get info "license" (Pypi.JStr "Unknown") = Return value.
Proof.
  induction results as [|r rs IH]; intros license_map final key value H Hget.
  - simpl in H. injection H as <-. now left.
  - simpl in H. apply bind_Return_inv in H as (m & Hm & H).
    destruct (IH _ _ _ _ H Hget) as [Hin | (page & info & Hin & Hrest)].
    + destruct r as [|page].
      * simpl in Hm. injection Hm as <-. now left.
      * apply record_decoded in Hm as (info & license & Hinfo & Hlic & ->).
        destruct (string_dec
                    (at_key (py_str (field info "name"))
                            (py_str (field info "version"))) key) as [E|E].
        -- rewrite E, dict_get_set_same in Hin. injection Hin as ->.
           right. exists page, info.
           split; [now left | split; [exact Hinfo | split; [now symmetry | exact Hlic]]].
        -- rewrite dict_get_set_other in Hin by exact E. now left.
    + right. exists page, info. split; [now right | exact Hrest].
Qed.

(** C6, amended.  A body that fails to decode drops its own pair only: the
    outcome of the batch is that of the batch without the pair.  Every entry
    of the returned map was written for a decoded response: its key is the
    [name@version] that the response's [info] gives and its value is the
    response's [license] as it came, the string ["Unknown"] when the field
    is absent; a pair is therefore in the map with such a value or not in
    it at all, and the values are strings as soon as the license fields of
    the responses are. *)
Theorem fetch_licenses_keeps_what_the_registry_sent :
  (forall before name version after,
     fetch_licenses (before ++ (name, version, Pypi.JSONDecodeError) :: after)
     = fetch_licenses (before ++ after))
  /\ (forall completed license_map key value,
        fetch_licenses completed = Return license_map ->
        dict_get license_map key = Some value ->
        exists name version page info,
          In (name, version, Pypi.Decoded page) completed
          /\ Pypi.get page "info" (Pypi.JObj []) = Return info
          /\ key = at_key (py_str (field info "name"))
                          (py_str (field info "version"))
          /\ Pypi.get info "license" (Pypi.JStr "Unknown") = Return value)
  /\ (forall completed license_map,
        fetch_licenses completed = Return license_map ->
        (forall name version page info license,
           In (name, version, Pypi.Decoded page) completed ->
           Pypi.get page "info" (Pypi.JObj []) = Return info ->
           Pypi.get info "license" (Pypi.JStr "Unknown") = Return license ->
           exists s, license = Pypi.JStr s) ->
        forall key value,
          dict_get license_map key = Some value -> exists s, value = Pypi.JStr s).
Proof.
  assert (Hprov : forall completed license_map key value,
             fetch_licenses completed = Return license_map ->
             dict_get license_map key = Some value ->
             exists name version page info,
               In (name, version, Pypi.Decoded page) completed
               /\ Pypi.get page "info" (Pypi.JObj []) = Return info
               /\ key = at_key (py_str (field info "name"))
                               (py_str (field info "version"))
               /\ Pypi.get info "license" (Pypi.JStr "Unknown") = Return value).
  { intros completed license_map key value H Hget.
    destruct (fetch_concurrent_provenance _ _ _ _ _ H Hget)
      as [Hnil | (page & info & Hin & Hrest)]; [discriminate|].
    apply in_map_iff in Hin as ([[name version] r] & Hr & Hin).
    simpl in Hr. subst r. exists name, version, page, info. now split. }
  split; [|split].
  - intros before name version after.
    unfold fetch_licenses, Pypi.fetch_licenses. rewrite !map_app. simpl map.
    fold fetch_concurrent. rewrite !fetch_concurrent_app.
    destruct (fetch_concurrent (map snd before) []); reflexivity.
  - exact Hprov.
  - intros completed license_map H Hstr key value Hget.
    destruct (Hprov _ _ _ _ H Hget)
      as (name & version & page & info & Hin & Hinfo & _ & Hlic).
    eapply Hstr; eauto.
Qed.

End FetchFacts.

Lemma fetch_licenses_keeps_what_the_registry_sent_witness :
  Pypi.fetch_licenses Scenario.no_str Scenario.five_requests
  = Return [("a@1.0.0", Pypi.JStr "MIT"); ("b@2.0.0", Pypi.JStr "Unknown");
            ("d@4.0.0", Pypi.JStr "BSD"); ("e@5.0.0", Pypi.JStr "Apache-2.0")]
  /\ exists s, Pypi.JStr "Unknown" = Pypi.JStr s.
Proof.
  destruct (fetch_licenses_keeps_what_the_registry_sent Scenario.no_str)
    as (Hdrop & _ & Hstr).
  split.
  - unfold Scenario.five_requests. rewrite Hdrop. reflexivity.
  - apply (Hstr Scenario.five_requests
                [("a@1.0.0", Pypi.JStr "MIT"); ("b@2.0.0", Pypi.JStr "Unknown");
                 ("d@4.0.0", Pypi.JStr "BSD"); ("e@5.0.0", Pypi.JStr "Apache-2.0")])
      with (key := "b@2.0.0").
    + reflexivity.
    + intros name version page info license Hin Hinfo Hlic.
      simpl in Hin.
      repeat (destruct Hin as [Hin|Hin];
              [first [ discriminate Hin
                     | injection Hin as <- <- <-; simpl in Hinfo;
                       injection Hinfo as <-; simpl in Hlic;
                       injection Hlic as <-; now eexists ] |]).
      contradiction.
    + reflexivity.
Defined.

(** C6 fails as stated: a response whose license is [null] puts [None] in
    the map, under the key of the queried pair. *)
Lemma null_license_is_stored_as_None :
  ~ string_or_omitted Scenario.no_str Scenario.null_license.
Proof.
  intros H.
  specialize (H [("a@1.0.0", Pypi.JNull)] eq_refl "a" "1.0.0" _ (or_introl eq_refl)).
  simpl in H. destruct H as [s Hs]. discriminate Hs.
Qed.

(** ** Further properties of the yarn runner *)

(** *** [get_name] *)

Lemma split_head sep s : forall a l,
  split sep s = a :: l ->
  occurs sep a = false
  /\ ((l = [] /\ s = a)
      \/ exists s', s = (a ++ String sep s')%string /\ split sep s' = l).
Proof.
  induction s as [|c s IH]; simpl; intros a l H.
  - injection H as <- <-. split; [reflexivity | now left].
  - destruct (Ascii.eqb c sep) eqn:E.
    + apply Ascii.eqb_eq in E. subst c. injection H as <- <-.
      split; [reflexivity|]. right. now exists s.
    + destruct (split sep s) as [|h t] eqn:Hs; [now apply split_nonempty in Hs|].
      injection H as <- <-.
      destruct (IH h t eq_refl) as [Hh Hcase]. split; [simpl; now rewrite E|].
      destruct Hcase as [[-> ->]|(s' & -> & Ht)]; [now left|].
      right. now exists s'.
Qed.

Lemma split_without_sep sep s : occurs sep s = false -> split sep s = [s].
Proof.
  induction s as [|c s IH]; simpl; intros H; [reflexivity|].
  apply orb_false_iff in H as [-> Hs]. now rewrite (IH Hs).
Qed.

Lemma split_with_sep sep s :
  occurs sep s = true -> exists a b l, split sep s = a :: b :: l.
Proof.
  induction s as [|c s IH]; simpl; intros H; [discriminate|].
  destruct (Ascii.eqb c sep) eqn:E.
  - destruct (split sep s) as [|h t] eqn:Hs; [now apply split_nonempty in Hs|].
    now exists EmptyString, h, t.
  - simpl in H. destruct (IH H) as (a & b & l & ->). now exists (String c a), b, l.
Qed.

Lemma append_empty_r (s : string) : (s ++ EmptyString)%string = s.
Proof. induction s as [|c s IH]; simpl; [reflexivity | now rewrite IH]. Qed.

Lemma startswith_app_empty_head a c rest :
  occurs c a = false -> startswith c (a ++ String c rest)%string = true ->
  a = EmptyString.
Proof.
  destruct a as [|c' a]; simpl; [reflexivity|].
  intros H H'. rewrite H' in H. discriminate.
Qed.

Lemma get_name_nonempty s n : get_name s = Return n -> n <> EmptyString.
Proof.
  unfold get_name.
  destruct (split "@" s) as [|parsedName [|signName rest]] eqn:Hs; try discriminate.
  destruct (startswith "@" s) eqn:Hstart; intros [= <-]; [discriminate|].
  intros ->. destruct (split_head _ _ _ _ Hs) as [_ [[Hnil _]|(s1 & -> & _)]];
    [discriminate | simpl in Hstart; discriminate].
Qed.

(** X1. What [get_name] returns is never empty, is a prefix of its argument
    that ends where the argument ends or right before an [@], and holds no
    [@] past its first character: the package name is the text before the
    first [@] that is not the scope marker. *)
Theorem get_name_returns_leading_segment s n :
  get_name s = Return n ->
  (exists c n', n = String c n' /\ occurs "@" n' = false)
  /\ exists rest, s = (n ++ rest)%string
                  /\ (rest = EmptyString \/ startswith "@" rest = true).
Proof.
  unfold get_name.
  destruct (split "@" s) as [|parsedName [|signName rest]] eqn:Hs; try discriminate.
  destruct (split_head _ _ _ _ Hs) as [Hp [[Hnil _]|(s1 & -> & Hs1)]];
    [discriminate|].
  destruct (startswith "@" (parsedName ++ String "@" s1)) eqn:Hstart;
    intros [= <-].
  - apply startswith_app_empty_head in Hstart; [|exact Hp]. subst parsedName.
    destruct (split_head _ _ _ _ Hs1) as [Hsign Hcase].
    split; [now exists "@"%char, signName|].
    destruct Hcase as [[_ ->]|(s2 & -> & _)].
    + exists EmptyString. split; [now rewrite append_empty_r | now left].
    + exists (String "@" s2). split; [reflexivity | now right].
  - split.
    + destruct parsedName as [|c p]; [simpl in Hstart; discriminate|].
      simpl in Hp. apply orb_false_iff in Hp as [_ Hp]. now exists c, p.
    + exists (String "@" s1). split; [reflexivity | now right].
Qed.

Lemma get_name_returns_leading_segment_witness :
  (exists c n', "@scope/pkg" = String c n' /\ occurs "@" n' = false)
  /\ exists rest, "@scope/pkg@^1.2.3 || @2" = ("@scope/pkg" ++ rest)%string
                  /\ (rest = EmptyString \/ startswith "@" rest = true).
Proof.
  apply (get_name_returns_leading_segment "@scope/pkg@^1.2.3 || @2" "@scope/pkg").
  reflexivity.
Defined.

Lemma get_name_without_at s :
  occurs "@" s = false -> get_name s = Raise ValueError.
Proof. intros H. unfold get_name. now rewrite (split_without_sep _ _ H). Qed.

Lemma get_name_with_at s :
  occurs "@" s = true -> exists n, get_name s = Return n.
Proof.
  intros H. unfold get_name. destruct (split_with_sep _ _ H) as (a & b & l & ->).
  destruct (startswith "@" s); now eexists.
Qed.

Lemma get_name_returns_iff s :
  (exists n, get_name s = Return n) <-> occurs "@" s = true.
Proof.
  split; [|apply get_name_with_at]. intros [n Hn].
  destruct (occurs "@" s) eqn:E; [reflexivity|].
  rewrite (get_name_without_at _ E) in Hn. discriminate.
Qed.

(** X2. [get_name] returns exactly on the strings that hold an [@]; on any
    other string, the empty one included, unpacking the split raises
    [ValueError].  A scoped name without a version part is returned whole. *)
Theorem get_name_needs_separator s :
  (get_name s = Raise ValueError <-> occurs "@" s = false)
  /\ ((exists n, get_name s = Return n) <-> occurs "@" s = true)
  /\ (forall scoped, s = String "@" scoped -> occurs "@" scoped = false ->
      get_name s = Return s).
Proof.
  split; [|split].
  - split; [|apply get_name_without_at]. intros H.
    destruct (occurs "@" s) eqn:E; [|reflexivity].
    destruct (get_name_with_at _ E) as [n Hn]. congruence.
  - apply get_name_returns_iff.
  - intros scoped -> Hs. unfold get_name. cbn [split startswith].
    rewrite Ascii.eqb_refl, (split_without_sep _ _ Hs). reflexivity.
Qed.

Lemma get_name_needs_separator_witness :
  get_name "@scope/pkg" = Return "@scope/pkg".
Proof.
  destruct (get_name_needs_separator "@scope/pkg") as (_ & _ & H).
  apply (H "scope/pkg"); reflexivity.
Defined.

(** *** [parse_yarn_lock] *)

Lemma dict_get_map_locked o key :
  dict_get (map locked o) key = option_map le_version (dict_get o key).
Proof.
  induction o as [|[k e] o IH]; simpl; [reflexivity|].
  destruct (String.eqb k key); [reflexivity | exact IH].
Qed.

(** X3. On a lock dict, [parse_yarn_lock] keeps the keys, in their order,
    and looking a key up in the version map gives the [version] field of
    the entry of that key: [None] when the entry has no such field and when
    there is no such entry. *)
Theorem parse_yarn_lock_lookup lock :
  dict_wf (lock_object lock) ->
  keys (parse_yarn_lock lock) = keys (lock_object lock)
  /\ forall key,
       pm_get (parse_yarn_lock lock) key
       = match dict_get (lock_object lock) key with
         | Some entry => le_version entry
         | None => None
         end.
Proof.
  intros Hwf. rewrite (parse_yarn_lock_wf _ Hwf). split.
  - apply keys_map_locked.
  - intros key. unfold pm_get. rewrite dict_get_map_locked.
    destruct (dict_get (lock_object lock) key); reflexivity.
Qed.

Lemma parse_yarn_lock_lookup_witness :
  keys (parse_yarn_lock Scenario.chain_lock)
  = keys (lock_object Scenario.chain_lock)
  /\ forall key,
       pm_get (parse_yarn_lock Scenario.chain_lock) key
       = match dict_get (lock_object Scenario.chain_lock) key with
         | Some entry => le_version entry
         | None => None
         end.
Proof.
  apply (parse_yarn_lock_lookup Scenario.chain_lock).
  unfold dict_wf. simpl. repeat constructor; simpl; intuition discriminate.
Defined.

(** *** [get_flat_tree] *)

Lemma get_flat_tree_entry_returns_iff package_map dependency :
  (exists kv, get_flat_tree_entry package_map dependency = Return kv)
  <-> all_named dependency = true.
Proof.
  induction dependency as [name children IH] using listing_induction.
  assert (Hloop : forall acc,
             (exists ft, get_flat_tree_from package_map children acc = Return ft)
             <-> forallb all_named children = true).
  { induction IH as [|d rest Hd _ IHrest]; intros acc; simpl.
    - split; [reflexivity | now eexists].
    - rewrite andb_true_iff, <- Hd, <- (IHrest (dict_set acc
                (match get_flat_tree_entry package_map d with
                 | Return kv => fst kv | _ => EmptyString end)
                (match get_flat_tree_entry package_map d with
                 | Return kv => snd kv | _ => Flat None None [] end))).
      destruct (get_flat_tree_entry package_map d) as [kv| |]; simpl.
      + split; [intros H; split; [now eexists | exact H] | now intros [_ H]].
      + split; [intros [ft H]; discriminate | intros [[kv H] _]; discriminate].
      + split; [intros [ft H]; discriminate | intros [[kv H] _]; discriminate]. }
  destruct name as [dep_full_name|].
  - rewrite get_flat_tree_entry_eq. cbn [all_named].
    rewrite andb_true_iff, <- (Hloop []).
    rewrite <- (get_name_returns_iff dep_full_name).
    destruct (get_name dep_full_name) as [nm| |]; simpl.
    + destruct (get_flat_tree_from package_map children []) as [deps| |]; simpl.
      * split; [intros _; split; now eexists | now eexists].
      * split; [intros [kv H]; discriminate | intros [_ [ft H]]; discriminate].
      * split; [intros [kv H]; discriminate | intros [_ [ft H]]; discriminate].
    + split; [intros [kv H]; discriminate | intros [[n H] _]; discriminate].
    + split; [intros [kv H]; discriminate | intros [[n H] _]; discriminate].
  - simpl. split; [intros [kv H]; discriminate | discriminate].
Qed.

Lemma get_flat_tree_from_returns_iff package_map dependencies : forall acc,
  (exists ft, get_flat_tree_from package_map dependencies acc = Return ft)
  <-> forallb all_named dependencies = true.
Proof.
  induction dependencies as [|d rest IH]; intros acc; simpl.
  - split; [reflexivity | now eexists].
  - rewrite andb_true_iff, <- (get_flat_tree_entry_returns_iff package_map d).
    destruct (get_flat_tree_entry package_map d) as [kv| |]; simpl.
    + rewrite IH. split; [intros H; split; [now eexists | exact H] | now intros [_ H]].
    + split; [intros [ft H]; discriminate | intros [[kv H] _]; discriminate].
    + split; [intros [ft H]; discriminate | intros [[kv H] _]; discriminate].
Qed.

(** X4. [get_flat_tree] returns a flat tree exactly when every record of the
    listing, at every depth, has a name that holds an [@]; otherwise it
    raises [AttributeError] or [ValueError].  The version map plays no part
    in this: an unresolved name is no error. *)
Theorem get_flat_tree_returns_iff dependencies package_map :
  ((exists flat_tree, get_flat_tree dependencies package_map = Return flat_tree)
   <-> forallb all_named dependencies = true)
  /\ (forallb all_named dependencies = false ->
      exists e, get_flat_tree dependencies package_map = Raise e
                /\ (e = AttributeError \/ e = ValueError)).
Proof.
  split; [apply get_flat_tree_from_returns_iff|].
  intros Hbad. pose proof (get_flat_tree_ends dependencies package_map) as Hend.
  destruct (get_flat_tree dependencies package_map) as [ft|e|] eqn:E;
    [|exists e; split; [reflexivity | destruct e; auto] | contradiction].
  assert (H : forallb all_named dependencies = true).
  { apply (get_flat_tree_from_returns_iff package_map dependencies []).
    now exists ft. }
  congruence.
Qed.

Lemma get_flat_tree_returns_iff_witness :
  exists e,
    get_flat_tree [Listing (Some "a@1.2.0") [Listing (Some "b") []]] [] = Raise e
    /\ (e = AttributeError \/ e = ValueError).
Proof.
  destruct (get_flat_tree_returns_iff
              [Listing (Some "a@1.2.0") [Listing (Some "b") []]] []) as [_ H].
  apply H. reflexivity.
Defined.

Lemma dict_set_keys {A} (d : dict A) k v x :
  In x (keys (dict_set d k v)) <-> x = k \/ In x (keys d).
Proof.
  unfold keys. induction d as [|[k' v'] d IH]; simpl.
  - intuition.
  - destruct (String.eqb k' k) eqn:E; simpl.
    + apply String.eqb_eq in E. subst k'. intuition.
    + rewrite IH. intuition.
Qed.

Lemma dict_set_wf {A} (d : dict A) k v : dict_wf d -> dict_wf (dict_set d k v).
Proof.
  unfold dict_wf. induction d as [|[k' v'] d IH]; simpl; intros H.
  - repeat constructor. intros [].
  - inversion H as [|? ? Hnotin Hnd]; subst.
    destruct (String.eqb k' k) eqn:E; simpl.
    + now constructor.
    + constructor; [|now apply IH].
      intros Hin. apply (dict_set_keys d k v k') in Hin as [->|Hin];
        [now rewrite String.eqb_refl in E | contradiction].
Qed.

Lemma dict_set_Forall {A} (P : string * A -> Prop) (d : dict A) k v :
  Forall P d -> P (k, v) -> Forall P (dict_set d k v).
Proof.
  intros Hd Hkv. induction Hd as [|[k' v'] d Hh Hd IH]; simpl.
  - now constructor.
  - destruct (String.eqb k' k) eqn:E.
    + apply String.eqb_eq in E. subst k'. now constructor.
    + now constructor.
Qed.

Lemma get_flat_tree_from_keyed package_map dependencies :
  Forall (fun d => forall kv,
            get_flat_tree_entry package_map d = Return kv ->
            keyed_record package_map (fst kv) (snd kv)) dependencies ->
  forall acc flat_tree,
    Forall (fun kv => keyed_record package_map (fst kv) (snd kv)) acc ->
    dict_wf acc ->
    get_flat_tree_from package_map dependencies acc = Return flat_tree ->
    Forall (fun kv => keyed_record package_map (fst kv) (snd kv)) flat_tree
    /\ dict_wf flat_tree.
Proof.
  induction 1 as [|d rest Hd _ IH]; intros acc flat_tree Hacc Hwf H; simpl in H.
  - injection H as <-. now split.
  - apply bind_Return_inv in H as ([k f] & Hkv & H).
    apply (IH _ _ (dict_set_Forall _ _ _ _ Hacc (Hd _ Hkv))
                 (dict_set_wf _ _ _ Hwf) H).
Qed.

Lemma get_flat_tree_entry_keyed package_map dependency : forall kv,
  get_flat_tree_entry package_map dependency = Return kv ->
  keyed_record package_map (fst kv) (snd kv).
Proof.
  induction dependency as [name children IH] using listing_induction.
  intros kv H. destruct name as [dep_full_name|]; [|discriminate].
  rewrite get_flat_tree_entry_eq in H.
  apply bind_Return_inv in H as (nm & Hnm & H).
  apply bind_Return_inv in H as (deps & Hdeps & H). injection H as <-.
  destruct (get_flat_tree_from_keyed package_map children IH [] deps)
    as [Hk Hwf]; [constructor | constructor | exact Hdeps |].
  simpl. constructor; [exact Hnm | now apply get_name_nonempty in Hnm | exact Hwf | exact Hk].
Qed.

(** X5. In a flat tree that [get_flat_tree] returns, every record at every
    depth is stored under the full name of its listing record, carries as
    name what [get_name] makes of that key (never the empty string) and as
    version what the version map holds for that very key ([None] when it
    holds nothing); no dict of the tree binds a key twice. *)
Theorem get_flat_tree_records dependencies package_map flat_tree :
  get_flat_tree dependencies package_map = Return flat_tree ->
  Forall (fun kv => keyed_record package_map (fst kv) (snd kv)) flat_tree
  /\ dict_wf flat_tree.
Proof.
  intros H.
  apply (get_flat_tree_from_keyed package_map dependencies) with (acc := []).
  - apply Forall_forall. intros d _. apply get_flat_tree_entry_keyed.
  - constructor.
  - constructor.
  - exact H.
Qed.

Lemma get_flat_tree_records_witness :
  Forall (fun kv => keyed_record Scenario.split_package_map (fst kv) (snd kv))
         Scenario.split_flat_tree
  /\ dict_wf Scenario.split_flat_tree.
Proof.
  apply (get_flat_tree_records Scenario.split_listing Scenario.split_package_map).
  reflexivity.
Defined.

Lemma get_flat_tree_entry_key package_map name children kv :
  get_flat_tree_entry package_map (Listing name children) = Return kv ->
  name = Some (fst kv).
Proof.
  destruct name as [dep_full_name|]; [|discriminate].
  rewrite get_flat_tree_entry_eq. intros H.
  apply bind_Return_inv in H as (nm & _ & H).
  apply bind_Return_inv in H as (deps & _ & H). now injection H as <-.
Qed.

Lemma get_flat_tree_from_keys package_map dependencies : forall acc flat_tree,
  get_flat_tree_from package_map dependencies acc = Return flat_tree ->
  forall key,
    In key (keys flat_tree)
    <-> In key (keys acc) \/ In (Some key) (map listing_name dependencies).
Proof.
  induction dependencies as [|[name children] rest IH]; intros acc ft H key;
    simpl in H.
  - injection H as <-. simpl. intuition.
  - apply bind_Return_inv in H as ([k f] & Hkv & H).
    apply get_flat_tree_entry_key in Hkv. simpl in Hkv. subst name.
    rewrite (IH _ _ H key), dict_set_keys. simpl.
    split; [intros [[->|Hk]|Hk] | intros [Hk|[Hk|Hk]]]; auto.
    injection Hk as ->. auto.
Qed.

Lemma get_flat_tree_from_app package_map xs ys : forall acc,
  get_flat_tree_from package_map (xs ++ ys) acc
  = (acc' <- get_flat_tree_from package_map xs acc ;;
     get_flat_tree_from package_map ys acc').
Proof.
  induction xs as [|x xs IH]; intros acc; simpl; [reflexivity|].
  destruct (get_flat_tree_entry package_map x) as [kv| |]; simpl;
    [apply IH | reflexivity | reflexivity].
Qed.

Lemma get_flat_tree_from_untouched package_map dependencies key :
  ~ In (Some key) (map listing_name dependencies) ->
  forall acc flat_tree,
    get_flat_tree_from package_map dependencies acc = Return flat_tree ->
    dict_get flat_tree key = dict_get acc key.
Proof.
  induction dependencies as [|[name children] rest IH]; intros Hnot acc ft H;
    simpl in H.
  - now injection H as <-.
  - apply bind_Return_inv in H as ([k f] & Hkv & H).
    apply get_flat_tree_entry_key in Hkv. cbn [fst snd] in H.
    simpl in Hkv, Hnot. subst name.
    rewrite (IH (fun Hin => Hnot (or_intror Hin)) _ _ H).
    apply dict_get_set_other. intros ->. apply Hnot. now left.
Qed.

(** X6. The keys of a returned flat tree are the names of the top-level
    listing records, each once; when a name occurs several times in the
    listing, the entry of that name holds what the last record of the name
    gives. *)
Theorem get_flat_tree_keys dependencies package_map flat_tree :
  get_flat_tree dependencies package_map = Return flat_tree ->
  NoDup (keys flat_tree)
  /\ (forall key, In key (keys flat_tree)
                  <-> In (Some key) (map listing_name dependencies))
  /\ forall before last after,
       dependencies = before ++ last :: after ->
       ~ In (listing_name last) (map listing_name after) ->
       exists kv,
         get_flat_tree_entry package_map last = Return kv
         /\ listing_name last = Some (fst kv)
         /\ dict_get flat_tree (fst kv) = Some (snd kv).
Proof.
  intros H. split; [|split].
  - apply (get_flat_tree_from_keyed package_map dependencies) with (acc := []);
      [|constructor|constructor|exact H].
    apply Forall_forall. intros d _. apply get_flat_tree_entry_keyed.
  - intros key. rewrite (get_flat_tree_from_keys _ _ _ _ H key). simpl. intuition.
  - intros before [name children] after -> Hlast.
    unfold get_flat_tree in H. rewrite get_flat_tree_from_app in H.
    apply bind_Return_inv in H as (acc & _ & H). simpl in H.
    apply bind_Return_inv in H as ([k f] & Hkv & H).
    exists (k, f). pose proof (get_flat_tree_entry_key _ _ _ _ Hkv) as Hname.
    simpl in Hname. split; [exact Hkv | split; [exact Hname|]].
    simpl in Hlast, H |- *. rewrite Hname in Hlast.
    rewrite (get_flat_tree_from_untouched _ _ _ Hlast _ _ H).
    apply dict_get_set_same.
Qed.

Lemma get_flat_tree_keys_witness :
  exists kv,
    get_flat_tree_entry Scenario.chain_package_map
      (Listing (Some "a@1.2.0") [Listing (Some "c@3.0.0") []]) = Return kv
    /\ Some "a@1.2.0" = Some (fst kv)
    /\ dict_get [("a@1.2.0",
                  Flat (Some "a") (Some "1.2.0")
                       [("c@3.0.0", Scenario.leaf "c" "3.0.0")]);
                 ("b@2.0.0", Scenario.leaf "b" "2.0.0")]
                (fst kv) = Some (snd kv).
Proof.
  destruct (get_flat_tree_keys
              [Listing (Some "a@1.2.0") [Listing (Some "b@2.0.0") []];
               Listing (Some "b@2.0.0") [];
               Listing (Some "a@1.2.0") [Listing (Some "c@3.0.0") []]]
              Scenario.chain_package_map
              [("a@1.2.0",
                Flat (Some "a") (Some "1.2.0")
                     [("c@3.0.0", Scenario.leaf "c" "3.0.0")]);
               ("b@2.0.0", Scenario.leaf "b" "2.0.0")] eq_refl) as (_ & _ & H).
  apply (H [Listing (Some "a@1.2.0") [Listing (Some "b@2.0.0") []];
            Listing (Some "b@2.0.0") []]
           (Listing (Some "a@1.2.0") [Listing (Some "c@3.0.0") []]) []).
  - reflexivity.
  - simpl. tauto.
Defined.

(** *** [get_dependency_tree] *)

Lemma top_level_returns flat_tree package_map root_n root_v name range record :
  dict_get flat_tree (at_key name (fmt (pm_get package_map (at_key name range))))
  = Some record ->
  exists t,
    top_level (fuel_bound flat_tree) flat_tree package_map
      (PNode root_n root_v flat_tree None) (name, range) = Return [t].
Proof.
  intros Hget.
  destruct (top_level_settled flat_tree package_map root_n root_v (name, range)
              _ (Nat.le_refl _)) as [_ [H|H]]; [exact H|].
  exfalso. unfold top_level in H. rewrite Hget in H.
  apply dict_get_in in Hget.
  pose proof (names_of_entry _ _ _ Hget) as Hdep.
  destruct (add_nested_dependencies_returns (names_in flat_tree)
              (fuel_bound flat_tree) record
              (PNode name (flat_version record) (flat_dependencies record)
                     (Some (PNode root_n root_v flat_tree None))))
    as [kids Hkids].
  - exact Hdep.
  - simpl. split; [|split; [apply incl_refl | exact I]].
    eapply incl_tran; [apply names_in_dependencies | exact Hdep].
  - apply fuel_bound_suffices.
    eapply incl_tran; [apply names_in_dependencies | exact Hdep].
  - rewrite Hkids in H. discriminate.
Qed.

Lemma get_dependency_tree_returns flat_tree package_json package_map :
  (exists tree,
     get_dependency_tree flat_tree package_json package_map = Return tree)
  <-> forall name range,
        In (name, range) (manifest package_json) ->
        dict_get flat_tree
          (at_key name (fmt (pm_get package_map (at_key name range)))) <> None.
Proof.
  unfold get_dependency_tree, get_dependency_tree_fuel. split.
  - intros [tree H] name range Hin.
    apply bind_Return_inv in H as (children & Hch & _).
    destruct (for_each_Return_all _ _ _ Hch _ Hin) as [r Hr].
    unfold top_level in Hr.
    destruct (dict_get flat_tree _); [discriminate | discriminate Hr].
  - intros Hall.
    destruct (for_each_returns
                (top_level (fuel_bound flat_tree) flat_tree package_map
                   (PNode (root_name package_json) (pj_version package_json)
                          flat_tree None))
                (manifest package_json)) as [rs ->].
    + intros [name range] Hin. specialize (Hall name range Hin).
      destruct (dict_get flat_tree _) as [record|] eqn:Hget; [|contradiction].
      destruct (top_level_returns _ _ (root_name package_json)
                  (pj_version package_json) _ _ _ Hget) as [t Ht].
      now exists [t].
    + simpl. now eexists.
Qed.

Lemma for_each_Forall2 {A B} (f : A -> outcome (list B)) (P : A -> B -> Prop) xs :
  (forall x r, f x = Return r -> exists y, r = [y] /\ P x y) ->
  forall rs, for_each f xs = Return rs -> Forall2 P xs rs.
Proof.
  intros Hf. induction xs as [|x xs IH]; simpl; intros rs H.
  - injection H as <-. constructor.
  - invert_iteration H. destruct (Hf _ _ Hhere) as (y & -> & Hy).
    simpl. constructor; [exact Hy | now apply IH].
Qed.

(** What the loop over the manifest attaches to the root. *)
Lemma get_dependency_tree_children flat_tree package_json package_map tree :
  get_dependency_tree flat_tree package_json package_map = Return tree ->
  Forall2
    (fun item child =>
       node_name child = fst item
       /\ exists record,
            dict_get flat_tree
              (at_key (fst item)
                 (fmt (pm_get package_map (at_key (fst item) (snd item)))))
            = Some record
            /\ node_version child = flat_version record
            /\ map node_id (node_children child)
               = child_set_ids (flat_dependencies record))
    (manifest package_json) (node_children tree).
Proof.
  unfold get_dependency_tree, get_dependency_tree_fuel. intros H.
  apply bind_Return_inv in H as (children & Hch & H). injection H as <-.
  cbn [node_children]. eapply for_each_Forall2; [|exact Hch].
  intros [name range] r Hr. cbn [fst snd].
  destruct (dict_get flat_tree
              (at_key name (fmt (pm_get package_map (at_key name range)))))
    as [record|] eqn:Hget; [|unfold top_level in Hr; rewrite Hget in Hr; discriminate].
  destruct (top_level_node _ _ _ _ _ _ _ _ Hget Hr) as (kids & -> & Hids).
  eexists. split; [reflexivity|]. split; [reflexivity|].
  exists record. now split.
Qed.

(** X8. The root of a returned tree carries the manifest's [name] (or
    ["package.json"] when there is none) and [version]; its children are
    the manifest's dependencies, one node each, in the manifest's order and
    under the manifest's names, whether or not their record is usable.  Each
    takes its version from the record found at the root level and has one
    child for every usable record that record lists. *)
Theorem get_dependency_tree_top_level flat_tree package_json package_map tree :
  get_dependency_tree flat_tree package_json package_map = Return tree ->
  node_name tree = match pj_name package_json with
                   | Some n => n
                   | None => "package.json"
                   end
  /\ node_version tree = pj_version package_json
  /\ map node_name (node_children tree) = keys (manifest package_json)
  /\ Forall2
       (fun item child =>
          exists record,
            dict_get flat_tree
              (at_key (fst item)
                 (fmt (pm_get package_map (at_key (fst item) (snd item)))))
            = Some record
            /\ node_version child = flat_version record
            /\ map node_id (node_children child)
               = child_set_ids (flat_dependencies record))
       (manifest package_json) (node_children tree).
Proof.
  intros H. pose proof (get_dependency_tree_children _ _ _ _ H) as Hch.
  unfold get_dependency_tree, get_dependency_tree_fuel in H.
  apply bind_Return_inv in H as (children & _ & H). injection H as <-.
  cbn [node_name node_version node_children] in *.
  split; [reflexivity | split; [reflexivity | split]].
  - unfold keys. induction Hch as [|item child items kids [Hn _] _ IH];
      simpl; [reflexivity | now rewrite Hn, IH].
  - eapply Forall2_impl; [|exact Hch]. now intros item child [_ Hrec].
Qed.

Lemma get_dependency_tree_top_level_witness :
  node_name (AnyNode "project" (Some "0.1.0")
               [AnyNode "a" (Some "1.0.0")
                  [AnyNode "z" (Some "4.0.0") [AnyNode "q" (Some "1.0.0") []]];
                AnyNode "b" (Some "1.0.0") [AnyNode "z" (Some "4.0.0") []]])
  = "project"
  /\ map node_name
       [AnyNode "a" (Some "1.0.0")
          [AnyNode "z" (Some "4.0.0") [AnyNode "q" (Some "1.0.0") []]];
        AnyNode "b" (Some "1.0.0") [AnyNode "z" (Some "4.0.0") []]]
     = ["a"; "b"].
Proof.
  destruct (get_dependency_tree_top_level Scenario.nested_flat_tree
              Scenario.split_package_json Scenario.split_package_map
              _ eq_refl) as (Hname & _ & Hkeys & _).
  split; [exact Hname | exact Hkeys].
Defined.

Lemma keyed_record_version package_map key record :
  keyed_record package_map key record ->
  flat_version record = pm_get package_map key
  /\ truthy (flat_name record) = true.
Proof.
  intros H. inversion H as [nm k d Hnm Hne Hwf Hd]; subst. split; [reflexivity|].
  simpl. destruct nm; [contradiction | reflexivity].
Qed.

(** X9. In the pipeline of [check], where the flat tree is the one
    [get_flat_tree] builds with the version map, the version of a top-level
    node is not the version the lock data resolves its range to: it is what
    the version map holds under [name@] followed by that resolved version,
    and [None] when the lock data has no entry of that key. *)
Theorem top_level_version_is_looked_up_twice
  trees package_json package_map flat_tree tree :
  get_flat_tree trees package_map = Return flat_tree ->
  get_dependency_tree flat_tree package_json package_map = Return tree ->
  Forall2
    (fun item child =>
       node_version child
       = pm_get package_map
           (at_key (fst item)
              (fmt (pm_get package_map (at_key (fst item) (snd item))))))
    (manifest package_json) (node_children tree).
Proof.
  intros Hflat Htree.
  assert (Hkeyed : Forall (fun kv => keyed_record package_map (fst kv) (snd kv))
                          flat_tree).
  { apply (get_flat_tree_from_keyed package_map trees) with (acc := []);
      [|constructor|constructor|exact Hflat].
    apply Forall_forall. intros d _. apply get_flat_tree_entry_keyed. }
  eapply Forall2_impl; [|exact (get_dependency_tree_children _ _ _ _ Htree)].
  intros item child [_ (record & Hget & Hv & _)].
  apply dict_get_in in Hget. rewrite Forall_forall in Hkeyed.
  apply Hkeyed in Hget. apply keyed_record_version in Hget as [Hver _].
  simpl in Hver. now rewrite Hv.
Qed.

Lemma top_level_version_is_looked_up_twice_witness :
  Forall2
    (fun (item : string * string) child =>
       node_version child
       = pm_get [("a@^1.0.0", Some "1.2.0")]
           (at_key (fst item)
              (fmt (pm_get [("a@^1.0.0", Some "1.2.0")]
                      (at_key (fst item) (snd item))))))
    [("a", "^1.0.0")] [AnyNode "a" None []].
Proof.
  apply (top_level_version_is_looked_up_twice
           [Listing (Some "a@1.2.0") []]
           (PackageJson None None (Some [("a", "^1.0.0")]))
           [("a@^1.0.0", Some "1.2.0")]
           [("a@1.2.0", Flat (Some "a") None [])]
           (AnyNode "package.json" None [AnyNode "a" None []]));
    reflexivity.
Defined.

(** *** Shape of the returned tree *)

Lemma list_max_le_Forall l n : Forall (fun x => x <= n) l -> list_max l <= n.
Proof. intros H. now apply list_max_le. Qed.

Lemma for_each_Forall {A B} (f : A -> outcome (list B)) (P : B -> Prop) xs :
  (forall x r, In x xs -> f x = Return r -> Forall P r) ->
  forall rs, for_each f xs = Return rs -> Forall P rs.
Proof.
  induction xs as [|x xs IH]; simpl; intros Hf rs H.
  - injection H as <-. constructor.
  - invert_iteration H. apply Forall_app. split.
    + eapply Hf; [now left | exact Hhere].
    + apply IH; [|exact Hrest]. intros y r Hy. apply Hf. now right.
Qed.

Lemma add_nested_dependencies_height fuel : forall dependency parent kids,
  add_nested_dependencies fuel dependency parent = Return kids ->
  Forall (fun k => height k <= fuel) kids.
Proof.
  induction fuel as [|fuel IH]; intros dependency parent kids H; [discriminate|].
  simpl in H. eapply for_each_Forall; [|exact H].
  intros r res _ Hres. rewrite expand_eq in Hres.
  destruct (usable r); [|injection Hres as <-; constructor].
  cbn zeta in Hres. apply bind_Return_inv in Hres as (children & Hch & Hres).
  injection Hres as <-. constructor; [|constructor].
  cbn [height]. apply le_n_S, list_max_le_Forall, Forall_map.
  destruct (py_in (fmt (flat_name r)) (guard_names parent));
    [injection Hch as <-; constructor|].
  destruct (closest_full_record _ parent) as [auth|];
    [exact (IH _ _ _ Hch) | injection Hch as <-; constructor].
Qed.

(** X10. No path of a returned tree, the root included, is longer than twice
    the number of names recorded in the flat tree plus four nodes: the
    cycle guard bounds the depth of the recursion by the flat tree alone,
    whatever the manifest and the version map. *)
Theorem get_dependency_tree_height flat_tree package_json package_map tree :
  get_dependency_tree flat_tree package_json package_map = Return tree ->
  height tree <= 2 * List.length (names_in flat_tree) + 4.
Proof.
  unfold get_dependency_tree, get_dependency_tree_fuel. intros H.
  apply bind_Return_inv in H as (children & Hch & H). injection H as <-.
  cbn [height].
  assert (Hkids : Forall (fun k => height k <= S (fuel_bound flat_tree)) children).
  { eapply for_each_Forall; [|exact Hch].
    intros [name range] r _ Hr. unfold top_level in Hr.
    destruct (dict_get flat_tree _) as [record|]; [|discriminate].
    apply bind_Return_inv in Hr as (kids & Hkids & Hr). injection Hr as <-.
    constructor; [|constructor]. cbn [height].
    apply le_n_S, list_max_le_Forall, Forall_map.
    exact (add_nested_dependencies_height _ _ _ _ Hkids). }
  rewrite <- (Forall_map height (fun h => h <= S (fuel_bound flat_tree))) in Hkids.
  apply list_max_le_Forall in Hkids. unfold fuel_bound in Hkids. lia.
Qed.

Lemma get_dependency_tree_height_witness :
  height (AnyNode "project" (Some "0.1.0")
            [AnyNode "x" (Some "1.0.0")
               [AnyNode "y" (Some "1.0.0") [AnyNode "x" (Some "1.0.0") []]]])
  <= 2 * List.length (names_in Scenario.cycle_flat_tree) + 4.
Proof.
  apply (get_dependency_tree_height Scenario.cycle_flat_tree
           Scenario.cycle_package_json Scenario.cycle_package_map).
  reflexivity.
Defined.

Lemma records_of_entry (d : dict flat) k f :
  In (k, f) d -> In f (records_in d) /\ incl (records_of f) (records_in d).
Proof.
  intros Hin. unfold records_in. split.
  - apply in_flat_map. exists (k, f). split; [exact Hin | now left].
  - intros x Hx. apply in_flat_map. exists (k, f). split; [exact Hin | now right].
Qed.

Lemma records_in_dependencies f : records_in (flat_dependencies f) = records_of f.
Proof. now destruct f. Qed.

Lemma closest_full_record_among R key p auth :
  scopes_among R p ->
  closest_full_record key p = Some auth ->
  incl (records_of auth) R.
Proof.
  induction p as [n v d | n v d p IH] using pnode_induction; simpl;
    intros [Hd Hp] H;
    destruct (find_full_dependency d key) as [f|] eqn:E;
    try discriminate; try (now apply IH).
  - injection H as ->. apply find_full_dependency_Some in E as [E _].
    apply dict_get_in, records_of_entry in E as [_ E].
    eapply incl_tran; eauto.
  - injection H as ->. apply find_full_dependency_Some in E as [E _].
    apply dict_get_in, records_of_entry in E as [_ E].
    eapply incl_tran; eauto.
Qed.

Lemma add_nested_dependencies_among R fuel : forall dependency parent kids,
  incl (records_of dependency) R ->
  scopes_among R parent ->
  add_nested_dependencies fuel dependency parent = Return kids ->
  Forall (fun k => Forall (fun n => exists r, In r R /\ usable r = true
                                              /\ node_id n = flat_id r)
                          (nodes_of k)) kids.
Proof.
  induction fuel as [|fuel IH]; intros dependency parent kids Hdep Hsc H;
    [discriminate|].
  simpl in H. eapply for_each_Forall; [|exact H].
  intros r res Hr Hres. rewrite expand_eq in Hres.
  destruct (usable r) eqn:Hu; [|injection Hres as <-; constructor].
  cbn zeta in Hres. apply bind_Return_inv in Hres as (children & Hch & Hres).
  injection Hres as <-. constructor; [|constructor].
  cbn [nodes_of]. constructor.
  - exists r. split; [|now split]. apply Hdep.
    rewrite <- records_in_dependencies. unfold values in Hr.
    apply in_map_iff in Hr as ([k f] & <- & Hin).
    now apply records_of_entry in Hin as [Hin _].
  - apply Forall_flat_map.
    destruct (py_in (fmt (flat_name r)) (guard_names parent));
      [injection Hch as <-; constructor|].
    destruct (closest_full_record _ parent) as [auth|] eqn:Hauth;
      [|injection Hch as <-; constructor].
    pose proof (closest_full_record_among _ _ _ _ Hsc Hauth) as Hamong.
    apply (IH _ _ _ Hamong) in Hch; [exact Hch|].
    simpl. split; [|exact Hsc]. now rewrite records_in_dependencies.
Qed.

Lemma nodes_among_records flat_tree package_json package_map tree :
  get_dependency_tree flat_tree package_json package_map = Return tree ->
  forall top n,
    In top (node_children tree) ->
    In n (flat_map nodes_of (node_children top)) ->
    exists r,
      In r (records_in flat_tree) /\ usable r = true /\ node_id n = flat_id r.
Proof.
  unfold get_dependency_tree, get_dependency_tree_fuel. intros H top n Htop Hn.
  apply bind_Return_inv in H as (children & Hch & H). injection H as <-.
  cbn [node_children] in Htop.
  assert (Hall : Forall (fun t =>
                   Forall (fun k => Forall (fun n => exists r,
                                      In r (records_in flat_tree)
                                      /\ usable r = true
                                      /\ node_id n = flat_id r) (nodes_of k))
                          (node_children t)) children).
  { eapply for_each_Forall; [|exact Hch].
    intros [name range] r _ Hr. unfold top_level in Hr.
    destruct (dict_get flat_tree _) as [record|] eqn:Hget; [|discriminate].
    apply bind_Return_inv in Hr as (kids & Hkids & Hr). injection Hr as <-.
    constructor; [|constructor]. cbn [node_children].
    apply dict_get_in, records_of_entry in Hget as [_ Hrec].
    eapply add_nested_dependencies_among; [exact Hrec | | exact Hkids].
    simpl. split; [now rewrite records_in_dependencies|].
    split; [apply incl_refl | exact I]. }
  rewrite Forall_forall in Hall. specialize (Hall _ Htop).
  rewrite <- Forall_flat_map, Forall_forall in Hall.
  exact (Hall _ Hn).
Qed.

Lemma usable_truthy r :
  usable r = true ->
  truthy (Some (fmt (flat_name r))) = true /\ truthy (flat_version r) = true.
Proof.
  unfold usable. intros Hu. apply andb_true_iff in Hu as [Hv Hn]. split; [|exact Hv].
  destruct (flat_name r) as [[|c s]|]; simpl in *; congruence.
Qed.

(** X11. The reconciliation invents no package: every node of a returned
    tree below the top-level nodes is made from a record that occurs
    somewhere in the flat tree, carries that record's name and version,
    and the record is usable, so that such a node never has an empty or
    missing name or version. *)
Theorem nodes_come_from_flat_records flat_tree package_json package_map tree :
  get_dependency_tree flat_tree package_json package_map = Return tree ->
  forall top n,
    In top (node_children tree) ->
    In n (flat_map nodes_of (node_children top)) ->
    exists r,
      In r (records_in flat_tree) /\ usable r = true
      /\ node_name n = fmt (flat_name r) /\ node_version n = flat_version r
      /\ truthy (Some (node_name n)) = true /\ truthy (node_version n) = true.
Proof.
  intros H top n Htop Hn.
  destruct (nodes_among_records _ _ _ _ H top n Htop Hn) as (r & Hr & Hu & Hid).
  exists r. injection Hid as Hname Hver.
  destruct (usable_truthy r Hu) as [Htn Htv].
  rewrite Hname, Hver. repeat split; assumption.
Qed.

Lemma nodes_come_from_flat_records_witness :
  exists r,
    In r (records_in Scenario.chain_flat_tree) /\ usable r = true
    /\ node_name (AnyNode "c" (Some "3.0.0") []) = fmt (flat_name r)
    /\ node_version (AnyNode "c" (Some "3.0.0") []) = flat_version r
    /\ truthy (Some (node_name (AnyNode "c" (Some "3.0.0") []))) = true
    /\ truthy (node_version (AnyNode "c" (Some "3.0.0") [])) = true.
Proof.
  apply (nodes_come_from_flat_records Scenario.chain_flat_tree
           Scenario.chain_package_json Scenario.chain_package_map _ eq_refl
           (AnyNode "a" (Some "1.2.0")
              [AnyNode "b" (Some "2.0.0") [AnyNode "c" (Some "3.0.0") []]])).
  - simpl. now left.
  - simpl. right. now left.
Defined.

Lemma for_each_expand_unlisted recurse parent rs r : forall kids,
  for_each (expand recurse parent) rs = Return kids ->
  In r rs -> usable r = true ->
  closest_full_record
    (at_key (fmt (flat_name r)) (fmt (flat_version r))) parent = None ->
  In (AnyNode (fmt (flat_name r)) (flat_version r) []) kids.
Proof.
  induction rs as [|r0 rs IH]; simpl; intros kids H Hin Hu Hnone; [contradiction|].
  invert_iteration H. apply in_or_app. destruct Hin as [->|Hin].
  - left. rewrite expand_eq, Hu in Hhere. cbn zeta in Hhere.
    rewrite Hnone in Hhere.
    destruct (py_in (fmt (flat_name r)) (guard_names parent));
      simpl in Hhere; injection Hhere as <-; now left.
  - right. eapply IH; eauto.
Qed.

(** X12. A usable record becomes a node without children whenever no scope
    from its parent up to the root lists its [name@version] with a
    non-empty child-set, whatever the record itself lists: a record stored
    under another key (a range, say) loses the children it lists unless
    some scope repeats them under the exact [name@version]. *)
Theorem children_need_a_record_under_the_exact_key
  fuel dependency parent kids record :
  add_nested_dependencies fuel dependency parent = Return kids ->
  In record (values (flat_dependencies dependency)) ->
  usable record = true ->
  closest_full_record
    (at_key (fmt (flat_name record)) (fmt (flat_version record))) parent = None ->
  In (AnyNode (fmt (flat_name record)) (flat_version record) []) kids.
Proof.
  intros H Hin Hu Hnone. destruct fuel as [|fuel]; [discriminate|].
  simpl in H. eapply for_each_expand_unlisted; eauto.
Qed.

Lemma children_need_a_record_under_the_exact_key_witness :
  get_dependency_tree
    [("a@1.2.0",
      Flat (Some "a") (Some "1.2.0")
           [("b@^2.0.0",
             Flat (Some "b") (Some "2.0.1") [("c@3.0.0", Scenario.leaf "c" "3.0.0")])])]
    Scenario.chain_package_json Scenario.chain_package_map
  = Return (AnyNode "project" (Some "0.1.0")
              [AnyNode "a" (Some "1.2.0") [AnyNode "b" (Some "2.0.1") []]])
  /\ In (AnyNode "b" (Some "2.0.1") []) [AnyNode "b" (Some "2.0.1") []].
Proof.
  split; [reflexivity|].
  apply (children_need_a_record_under_the_exact_key 1
           (Flat (Some "a") (Some "1.2.0")
                 [("b@^2.0.0",
                   Flat (Some "b") (Some "2.0.1")
                        [("c@3.0.0", Scenario.leaf "c" "3.0.0")])])
           (PNode "a" (Some "1.2.0")
                  [("b@^2.0.0",
                    Flat (Some "b") (Some "2.0.1")
                         [("c@3.0.0", Scenario.leaf "c" "3.0.0")])]
                  (Some (PNode "project" (Some "0.1.0") [] None)))
           [AnyNode "b" (Some "2.0.1") []]
           (Flat (Some "b") (Some "2.0.1") [("c@3.0.0", Scenario.leaf "c" "3.0.0")]));
    try reflexivity.
  simpl. now left.
Defined.

(** ** Further properties of the python runner *)

Lemma write_all_app {A} (ws1 ws2 : dict A) m :
  write_all (ws1 ++ ws2) m = write_all ws2 (write_all ws1 m).
Proof. unfold write_all. apply fold_left_app. Qed.

Lemma write_all_untouched {A} (ws : dict A) key : forall m,
  ~ In key (keys ws) -> dict_get (write_all ws m) key = dict_get m key.
Proof.
  induction ws as [|[k v] ws IH]; intros m Hnot; [reflexivity|].
  simpl in *. unfold write_all in *. simpl. rewrite IH by tauto.
  apply dict_get_set_other. intros ->. tauto.
Qed.

Lemma write_all_fresh {A} (ws : dict A) : forall m,
  NoDup (keys m ++ keys ws) -> write_all ws m = m ++ ws.
Proof.
  induction ws as [|[k v] ws IH]; intros m Hnd.
  - simpl. now rewrite app_nil_r.
  - unfold write_all in *. simpl. rewrite dict_set_fresh.
    + rewrite IH; [now rewrite <- app_assoc|].
      unfold keys in *. rewrite map_app. simpl. now rewrite <- app_assoc.
    + apply NoDup_remove_2 in Hnd. intros Hin. apply Hnd, in_or_app. now left.
Qed.

Lemma dict_get_None {A} (d : dict A) key :
  dict_get d key = None <-> ~ In key (keys d).
Proof.
  unfold keys. induction d as [|[k v] d IH]; simpl; [tauto|].
  destruct (String.eqb k key) eqn:E.
  - apply String.eqb_eq in E. split; [discriminate | tauto].
  - rewrite IH. apply String.eqb_neq in E. tauto.
Qed.

(** Two dicts with the same bindings answer every lookup alike. *)
Lemma dict_get_Permutation {A} (d1 d2 : dict A) key :
  dict_wf d1 -> Permutation d1 d2 -> dict_get d1 key = dict_get d2 key.
Proof.
  intros Hwf Hperm.
  assert (Hwf2 : dict_wf d2).
  { unfold dict_wf, keys in *.
    eapply Permutation_NoDup; [apply Permutation_map; exact Hperm | exact Hwf]. }
  destruct (dict_get d1 key) as [v|] eqn:E1.
  - symmetry. apply dict_in_get; [exact Hwf2|].
    eapply Permutation_in; [exact Hperm | now apply dict_get_in].
  - destruct (dict_get d2 key) as [v|] eqn:E2; [|reflexivity].
    apply dict_get_in in E2.
    apply (Permutation_in _ (Permutation_sym Hperm)) in E2.
    apply (dict_in_get _ _ _ Hwf) in E2. congruence.
Qed.

Section FetchMore.

Variable str_other : Pypi.json -> string.

Local Abbreviation fetch_concurrent := (Pypi.fetch_concurrent str_other).
Local Abbreviation fetch_licenses := (Pypi.fetch_licenses str_other).

Lemma record_well_formed license_map page :
  well_formed page = true ->
  Pypi.record str_other license_map (Pypi.Decoded page)
  = Return (dict_set license_map (page_key str_other page) (page_license page)).
Proof.
  unfold well_formed, page_key, page_license, page_info.
  destruct page as [| | | | |fields]; try discriminate.
  simpl. destruct (dict_get fields "info") as [info|]; [|reflexivity].
  destruct info; try discriminate. reflexivity.
Qed.

Lemma record_ill_formed license_map page :
  well_formed page = false ->
  Pypi.record str_other license_map (Pypi.Decoded page) = Raise AttributeError.
Proof.
  unfold well_formed, page_info.
  destruct page as [| | | | |fields]; try reflexivity.
  simpl. destruct (dict_get fields "info") as [info|]; [|discriminate].
  destruct info; try reflexivity. discriminate.
Qed.

Lemma fetch_concurrent_cons result results license_map :
  fetch_concurrent (result :: results) license_map
  = (m <- Pypi.record str_other license_map result ;; fetch_concurrent results m).
Proof. reflexivity. Qed.

Lemma fetch_concurrent_well_formed completed : forall license_map,
  all_well_formed completed = true ->
  fetch_concurrent (map snd completed) license_map
  = Return (write_all (writes str_other completed) license_map).
Proof.
  induction completed as [|[[n v] [|page]] rest IH]; intros m Hwf;
    [reflexivity | |]; cbn [map snd]; rewrite fetch_concurrent_cons.
  - apply IH. exact Hwf.
  - simpl in Hwf. apply andb_true_iff in Hwf as [Hpage Hrest].
    rewrite (record_well_formed _ _ Hpage). simpl bind. now rewrite IH.
Qed.

Lemma fetch_concurrent_ill_formed completed : forall license_map,
  all_well_formed completed = false ->
  fetch_concurrent (map snd completed) license_map = Raise AttributeError.
Proof.
  induction completed as [|[[n v] [|page]] rest IH]; intros m Hwf;
    [discriminate | |]; cbn [map snd]; rewrite fetch_concurrent_cons.
  - apply IH. exact Hwf.
  - simpl in Hwf. destruct (well_formed page) eqn:Hpage; simpl in Hwf.
    + rewrite (record_well_formed _ _ Hpage). simpl bind. now apply IH.
    + now rewrite (record_ill_formed _ _ Hpage).
Qed.

(** X14. A batch that returns a map had well-formed bodies only: every
    body that decoded was a dict whose [info], if it has one, is a dict.
    One body that decodes to anything else (a list, a string, [null], or a
    dict with a non-dict [info]) keeps [fetch_licenses] from returning a
    map, wherever it completes and whatever the other responses are. *)
Theorem fetch_licenses_returns_only_well_formed completed license_map :
  fetch_licenses completed = Return license_map ->
  all_well_formed completed = true
  /\ forall name version page,
       In (name, version, Pypi.Decoded page) completed ->
       well_formed page = true.
Proof.
  intros H.
  assert (Hwf : all_well_formed completed = true).
  { destruct (all_well_formed completed) eqn:E; [reflexivity|].
    unfold Pypi.fetch_licenses in H.
    rewrite (fetch_concurrent_ill_formed _ _ E) in H. discriminate. }
  split; [exact Hwf|]. intros name version page Hin.
  unfold all_well_formed in Hwf. rewrite forallb_forall in Hwf.
  exact (Hwf _ Hin).
Qed.

(** X15. When the decoded responses are well-formed and name pairwise
    different [name@version] keys, the license map is the list of their
    [(key, license)] bindings in completion order: one entry for each body
    that decodes, none for those that do not. *)
Theorem fetch_licenses_distinct_keys completed :
  all_well_formed completed = true ->
  NoDup (keys (writes str_other completed)) ->
  fetch_licenses completed = Return (writes str_other completed).
Proof.
  intros Hwf Hnd. unfold Pypi.fetch_licenses.
  rewrite (fetch_concurrent_well_formed _ _ Hwf).
  now rewrite write_all_fresh.
Qed.

Lemma all_well_formed_Permutation c1 c2 :
  Permutation c1 c2 -> all_well_formed c1 = true -> all_well_formed c2 = true.
Proof.
  unfold all_well_formed. intros Hperm H. rewrite forallb_forall in *.
  intros x Hx. apply H. eapply Permutation_in; [apply Permutation_sym; eauto | exact Hx].
Qed.

(** X16. The order in which the requests complete does not matter to the
    readers of the license map: when the decoded responses name pairwise
    different keys, any other completion order returns a map that answers
    every lookup alike. *)
Theorem fetch_licenses_order_irrelevant completed1 completed2 license_map1 :
  Permutation completed1 completed2 ->
  NoDup (keys (writes str_other completed1)) ->
  fetch_licenses completed1 = Return license_map1 ->
  exists license_map2,
    fetch_licenses completed2 = Return license_map2
    /\ forall key, dict_get license_map1 key = dict_get license_map2 key.
Proof.
  intros Hperm Hnd H1.
  assert (Hwf1 : all_well_formed completed1 = true).
  { destruct (all_well_formed completed1) eqn:E; [reflexivity|].
    unfold Pypi.fetch_licenses in H1.
    rewrite (fetch_concurrent_ill_formed _ _ E) in H1. discriminate. }
  pose proof (all_well_formed_Permutation _ _ Hperm Hwf1) as Hwf2.
  assert (Hw : Permutation (writes str_other completed1) (writes str_other completed2))
    by (unfold writes; now apply Permutation_flat_map).
  assert (Hnd2 : NoDup (keys (writes str_other completed2))).
  { unfold keys in *.
    eapply Permutation_NoDup; [apply Permutation_map; exact Hw | exact Hnd]. }
  unfold Pypi.fetch_licenses in *.
  rewrite (fetch_concurrent_well_formed _ _ Hwf1), write_all_fresh in H1
    by exact Hnd.
  injection H1 as <-.
  exists (writes str_other completed2). split.
  - rewrite (fetch_concurrent_well_formed _ _ Hwf2). now rewrite write_all_fresh.
  - intros key. now apply dict_get_Permutation.
Qed.

(** X17. When several responses name the same key, the one that completes
    last decides: a well-formed response's license is what the returned map
    holds under its key unless a response that completes later names the
    same key. *)
Theorem fetch_licenses_last_response_wins
  before name version page after license_map :
  fetch_licenses (before ++ (name, version, Pypi.Decoded page) :: after)
  = Return license_map ->
  ~ In (page_key str_other page) (keys (writes str_other after)) ->
  dict_get license_map (page_key str_other page) = Some (page_license page).
Proof.
  intros H Hlater.
  assert (Hwf : all_well_formed
                  (before ++ (name, version, Pypi.Decoded page) :: after) = true).
  { destruct (all_well_formed _) eqn:E; [reflexivity|].
    unfold Pypi.fetch_licenses in H.
    rewrite (fetch_concurrent_ill_formed _ _ E) in H. discriminate. }
  unfold Pypi.fetch_licenses in H.
  rewrite (fetch_concurrent_well_formed _ _ Hwf) in H. injection H as <-.
  unfold writes. rewrite flat_map_app. simpl flat_map.
  rewrite write_all_app. fold (writes str_other before) (writes str_other after).
  change ((page_key str_other page, page_license page) :: writes str_other after)
    with ([(page_key str_other page, page_license page)] ++ writes str_other after).
  rewrite write_all_app, write_all_untouched by exact Hlater.
  apply dict_get_set_same.
Qed.

End FetchMore.

Lemma fetch_licenses_returns_only_well_formed_witness :
  all_well_formed Scenario.five_requests = true
  /\ forall name version page,
       In (name, version, Pypi.Decoded page) Scenario.five_requests ->
       well_formed page = true.
Proof.
  apply (fetch_licenses_returns_only_well_formed Scenario.no_str
           Scenario.five_requests
           [("a@1.0.0", Pypi.JStr "MIT"); ("b@2.0.0", Pypi.JStr "Unknown");
            ("d@4.0.0", Pypi.JStr "BSD"); ("e@5.0.0", Pypi.JStr "Apache-2.0")]).
  reflexivity.
Defined.

Lemma fetch_licenses_distinct_keys_witness :
  Pypi.fetch_licenses Scenario.no_str Scenario.five_requests
  = Return (writes Scenario.no_str Scenario.five_requests).
Proof.
  apply (fetch_licenses_distinct_keys Scenario.no_str Scenario.five_requests).
  - reflexivity.
  - simpl. repeat constructor; simpl; intuition discriminate.
Defined.

Lemma fetch_licenses_order_irrelevant_witness :
  exists license_map2,
    Pypi.fetch_licenses Scenario.no_str
      [("b", "2.0.0", Pypi.Decoded (Scenario.page "b" "2.0.0" None));
       ("a", "1.0.0", Pypi.Decoded (Scenario.page "a" "1.0.0" (Some (Pypi.JStr "MIT"))))]
    = Return license_map2
    /\ forall key,
         dict_get [("a@1.0.0", Pypi.JStr "MIT"); ("b@2.0.0", Pypi.JStr "Unknown")] key
         = dict_get license_map2 key.
Proof.
  apply (fetch_licenses_order_irrelevant Scenario.no_str
           [("a", "1.0.0",
             Pypi.Decoded (Scenario.page "a" "1.0.0" (Some (Pypi.JStr "MIT"))));
            ("b", "2.0.0", Pypi.Decoded (Scenario.page "b" "2.0.0" None))]).
  - apply perm_swap.
  - simpl. repeat constructor; simpl; intuition discriminate.
  - reflexivity.
Defined.

Lemma fetch_licenses_last_response_wins_witness :
  dict_get [("a@1.0.0", Pypi.JStr "BSD")]
           (page_key Scenario.no_str
              (Scenario.page "a" "1.0.0" (Some (Pypi.JStr "BSD"))))
  = Some (page_license (Scenario.page "a" "1.0.0" (Some (Pypi.JStr "BSD")))).
Proof.
  apply (fetch_licenses_last_response_wins Scenario.no_str
           [("a", "1.0.0",
             Pypi.Decoded (Scenario.page "a" "1.0.0" (Some (Pypi.JStr "MIT"))))]
           "a" "1.0.0" (Scenario.page "a" "1.0.0" (Some (Pypi.JStr "BSD"))) []).
  - reflexivity.
  - simpl. tauto.
Defined.

(** *** The tree of the python runner *)

Lemma dep_induction (P : PipTree.dep -> Prop) :
  (forall name version, P (PipTree.Dep name version None)) ->
  (forall name version deps,
     Forall P deps -> P (PipTree.Dep name version (Some deps))) ->
  forall d, P d.
Proof.
  intros Hnone Hsome. fix IH 1. intros [name version [deps|]]; [|apply Hnone].
  apply Hsome. induction deps as [|x deps IHd]; constructor; [apply IH | exact IHd].
Qed.

(** The loop over the dependencies of a record is [add_all]. *)
Lemma pip_add_nested_dependencies_eq name version deps :
  PipTree.add_nested_dependencies (PipTree.Dep (Some name) (Some version) (Some deps))
  = match PipTree.add_all deps with
    | PipTree.KeyError k => PipTree.KeyError k
    | PipTree.Built children =>
        PipTree.Built (AnyNode name (Some version) children)
    end.
Proof.
  simpl. 
  assert (H : forall l,
            (fix loop (l : list PipTree.dep) : PipTree.built (list node) :=
               match l with
               | [] => PipTree.Built []
               | x :: l' =>
                   match PipTree.add_nested_dependencies x with
                   | PipTree.KeyError k => PipTree.KeyError k
                   | PipTree.Built n =>
                       match loop l' with
                       | PipTree.KeyError k => PipTree.KeyError k
                       | PipTree.Built ns => PipTree.Built (n :: ns)
                       end
                   end
               end) l = PipTree.add_all l).
  { induction l as [|x l IHl]; simpl; [reflexivity|].
    destruct (PipTree.add_nested_dependencies x); [|reflexivity].
    now rewrite IHl. }
  now rewrite H.
Qed.

Lemma pip_add_all_iff deps :
  Forall (fun d => (exists t, PipTree.add_nested_dependencies d = PipTree.Built t)
                   <-> PipTree.complete d = true) deps ->
  (exists ts, PipTree.add_all deps = PipTree.Built ts)
  <-> forallb PipTree.complete deps = true.
Proof.
  induction 1 as [|d rest Hd _ IH]; simpl.
  - split; [reflexivity | now eexists].
  - rewrite andb_true_iff, <- Hd, <- IH.
    destruct (PipTree.add_nested_dependencies d) as [t|k].
    + destruct (PipTree.add_all rest) as [ts|k].
      * split; [intros _; split; now eexists | now eexists].
      * split; [intros [ts H]; discriminate | intros [_ [ts H]]; discriminate].
    + split; [intros [ts H]; discriminate | intros [[t H] _]; discriminate].
Qed.

Lemma pip_add_nested_dependencies_iff d :
  (exists t, PipTree.add_nested_dependencies d = PipTree.Built t)
  <-> PipTree.complete d = true.
Proof.
  induction d as [name version | name version deps IH] using dep_induction.
  - destruct name, version; simpl;
      (split; [intros [t H]; discriminate | discriminate]).
  - destruct name as [name|], version as [version|];
      try (simpl; split; [intros [t H]; discriminate | discriminate]).
    rewrite pip_add_nested_dependencies_eq. cbn [PipTree.complete].
    rewrite <- (pip_add_all_iff deps IH).
    destruct (PipTree.add_all deps) as [ts|k].
    + split; now eexists.
    + split; intros [x H]; discriminate.
Qed.

(** X18. The python runner builds its tree exactly when every record of the
    [pipdeptree] output, at every depth, has the keys [package_name],
    [installed_version] and [dependencies]; a record without one of them
    makes the whole of [check]'s tree building end in a [KeyError], and the
    key reported is one of these three. *)
Theorem pip_tree_needs_complete_records dep_tree :
  ((exists tree, PipTree.check_tree dep_tree = PipTree.Built tree)
   <-> forallb PipTree.complete dep_tree = true)
  /\ forall key,
       PipTree.check_tree dep_tree = PipTree.KeyError key ->
       key = "package_name" \/ key = "installed_version" \/ key = "dependencies".
Proof.
  split.
  - unfold PipTree.check_tree.
    rewrite <- (pip_add_all_iff dep_tree);
      [|apply Forall_forall; intros d _; apply pip_add_nested_dependencies_iff].
    destruct (PipTree.add_all dep_tree) as [ts|k].
    + split; now eexists.
    + split; intros [x H]; discriminate.
  - assert (Hone : forall d key,
               PipTree.add_nested_dependencies d = PipTree.KeyError key ->
               key = "package_name" \/ key = "installed_version"
               \/ key = "dependencies").
    { induction d as [name version | name version deps IH] using dep_induction;
        intros key H.
      - destruct name, version; simpl in H; injection H as <-; auto.
      - destruct name as [name|], version as [version|];
          try (simpl in H; injection H as <-; auto; fail).
        rewrite pip_add_nested_dependencies_eq in H.
        induction IH as [|d rest Hd _ IHrest]; simpl in H; [discriminate|].
        destruct (PipTree.add_nested_dependencies d) as [t|k] eqn:Ed.
        + destruct (PipTree.add_all rest) as [ts|k]; [discriminate|].
          apply IHrest. exact H.
        + injection H as <-. now apply Hd. }
    intros key H. unfold PipTree.check_tree in H.
    induction dep_tree as [|d rest IH]; simpl in H; [discriminate|].
    destruct (PipTree.add_nested_dependencies d) as [t|k] eqn:Ed.
    + destruct (PipTree.add_all rest) as [ts|k]; [discriminate|].
      apply IH. exact H.
    + injection H as <-. now apply (Hone d).
Qed.

Lemma pip_tree_needs_complete_records_witness :
  "installed_version" = "package_name" \/ "installed_version" = "installed_version"
  \/ "installed_version" = "dependencies".
Proof.
  destruct (pip_tree_needs_complete_records
              [PipTree.Dep (Some "flask") (Some "1.0")
                 (Some [PipTree.Dep (Some "jinja2") None (Some [])])]) as [_ H].
  apply H. reflexivity.
Defined.

Lemma pip_add_all_mirrors deps :
  Forall (fun d => forall t, PipTree.add_nested_dependencies d = PipTree.Built t ->
                             PipTree.to_dep t = d) deps ->
  forall ts, PipTree.add_all deps = PipTree.Built ts ->
             map PipTree.to_dep ts = deps.
Proof.
  induction 1 as [|d rest Hd _ IH]; simpl; intros ts H.
  - now injection H as <-.
  - destruct (PipTree.add_nested_dependencies d) as [t|k]; [|discriminate].
    destruct (PipTree.add_all rest) as [ts'|k]; [|discriminate].
    injection H as <-. simpl. now rewrite (Hd t eq_refl), (IH ts' eq_refl).
Qed.

Lemma pip_add_nested_dependencies_mirrors d : forall t,
  PipTree.add_nested_dependencies d = PipTree.Built t -> PipTree.to_dep t = d.
Proof.
  induction d as [name version | name version deps IH] using dep_induction;
    intros t H.
  - destruct name, version; discriminate.
  - destruct name as [name|], version as [version|]; try discriminate.
    rewrite pip_add_nested_dependencies_eq in H.
    destruct (PipTree.add_all deps) as [ts|k] eqn:E; [|discriminate].
    injection H as <-. simpl. now rewrite (pip_add_all_mirrors deps IH ts E).
Qed.

(** X19. The tree the python runner builds is the [pipdeptree] output under
    a node named ["root"] with the empty version: read back, the subtrees
    of the root give the input records again, with every name, version,
    nesting and repetition, in the same order.  Nothing is merged, dropped
    or cut, unlike in the yarn runner. *)
Theorem pip_tree_mirrors_input dep_tree tree :
  PipTree.check_tree dep_tree = PipTree.Built tree ->
  node_name tree = "root"
  /\ node_version tree = Some EmptyString
  /\ map PipTree.to_dep (node_children tree) = dep_tree.
Proof.
  unfold PipTree.check_tree. intros H.
  destruct (PipTree.add_all dep_tree) as [ts|k] eqn:E; [|discriminate].
  injection H as <-. split; [reflexivity | split; [reflexivity|]].
  cbn [node_children]. apply (pip_add_all_mirrors dep_tree); [|exact E].
  apply Forall_forall. intros d _. apply pip_add_nested_dependencies_mirrors.
Qed.

Lemma pip_tree_mirrors_input_witness :
  node_name (AnyNode "root" (Some EmptyString)
               [AnyNode "flask" (Some "1.0")
                  [AnyNode "jinja2" (Some "2.10") [];
                   AnyNode "jinja2" (Some "2.10") []]])
  = "root"
  /\ node_version (AnyNode "root" (Some EmptyString)
                     [AnyNode "flask" (Some "1.0")
                        [AnyNode "jinja2" (Some "2.10") [];
                         AnyNode "jinja2" (Some "2.10") []]])
     = Some EmptyString
  /\ map PipTree.to_dep
       (node_children
          (AnyNode "root" (Some EmptyString)
             [AnyNode "flask" (Some "1.0")
                [AnyNode "jinja2" (Some "2.10") [];
                 AnyNode "jinja2" (Some "2.10") []]]))
     = [PipTree.Dep (Some "flask") (Some "1.0")
          (Some [PipTree.Dep (Some "jinja2") (Some "2.10") (Some []);
                 PipTree.Dep (Some "jinja2") (Some "2.10") (Some [])])].
Proof.
  apply (pip_tree_mirrors_input
           [PipTree.Dep (Some "flask") (Some "1.0")
              (Some [PipTree.Dep (Some "jinja2") (Some "2.10") (Some []);
                     PipTree.Dep (Some "jinja2") (Some "2.10") (Some [])])]).
  reflexivity.
Defined.

(** *** The pipeline of [YarnRunner.check] *)

Lemma flat_induction (P : flat -> Prop) :
  (forall n v d, Forall (fun kv => P (snd kv)) d -> P (Flat n v d)) ->
  forall f, P f.
Proof.
  intros H. fix IH 1. intros [n v d]. apply H.
  induction d as [|[k f] d IHd]; constructor; [apply IH | exact IHd].
Qed.

Lemma records_of_keyed package_map f : forall key,
  keyed_record package_map key f ->
  forall r, In r (records_of f) -> exists k, keyed_record package_map k r.
Proof.
  induction f as [n v d IH] using flat_induction. intros key Hk r Hr.
  inversion Hk as [nm k d' Hnm Hne Hwf Hd]; subst.
  simpl in Hr. apply in_flat_map in Hr as ([k' f'] & Hin & Hr).
  rewrite Forall_forall in IH, Hd. simpl in Hr. destruct Hr as [<-|Hr].
  - exists k'. exact (Hd _ Hin).
  - exact (IH _ Hin k' (Hd _ Hin) r Hr).
Qed.

Lemma records_in_keyed package_map (d : dict flat) r :
  Forall (fun kv => keyed_record package_map (fst kv) (snd kv)) d ->
  In r (records_in d) -> exists k, keyed_record package_map k r.
Proof.
  intros Hd Hr. unfold records_in in Hr.
  apply in_flat_map in Hr as ([k f] & Hin & Hr).
  rewrite Forall_forall in Hd. simpl in Hr. destruct Hr as [<-|Hr].
  - exists k. exact (Hd _ Hin).
  - exact (records_of_keyed _ _ _ (Hd _ Hin) r Hr).
Qed.

Lemma records_in_dict_set (d : dict flat) k f r :
  In r (records_in (dict_set d k f)) ->
  In r (records_in d) \/ In r (f :: records_of f).
Proof.
  unfold records_in. induction d as [|[k' f'] d IH]; simpl.
  - rewrite app_nil_r. auto.
  - destruct (String.eqb k' k); simpl; intros [<-|H]; auto.
    + apply in_app_or in H as [H|H]; auto. left. right. apply in_or_app. auto.
    + apply in_app_or in H as [H|H]; [left; right; apply in_or_app; auto|].
      destruct (IH H) as [H'|H']; [|auto]. left. right. apply in_or_app. auto.
Qed.

Lemma keyed_among_incl package_map S S' r :
  incl S S' -> keyed_among package_map S r -> keyed_among package_map S' r.
Proof. intros Hincl (key & Hin & Hk). exists key. auto. Qed.

Lemma get_flat_tree_from_listed package_map dependencies :
  Forall (fun l => forall kv,
            get_flat_tree_entry package_map l = Return kv ->
            forall r, In r (snd kv :: records_of (snd kv)) ->
                      keyed_among package_map (names_below l) r) dependencies ->
  forall S acc flat_tree,
    incl (flat_map names_below dependencies) S ->
    (forall r, In r (records_in acc) -> keyed_among package_map S r) ->
    get_flat_tree_from package_map dependencies acc = Return flat_tree ->
    forall r, In r (records_in flat_tree) -> keyed_among package_map S r.
Proof.
  induction 1 as [|l rest Hl _ IH]; intros S acc ft Hincl Hacc H r Hr;
    simpl in H.
  - injection H as <-. auto.
  - apply bind_Return_inv in H as ([k f] & Hkv & H). cbn [fst snd] in H.
    simpl in Hincl.
    apply (IH S _ _ (fun x Hx => Hincl x (in_or_app _ _ _ (or_intror Hx)))) with (r := r) in H;
      [exact H | | exact Hr].
    intros r' Hr'. apply records_in_dict_set in Hr' as [Hr'|Hr']; [auto|].
    eapply keyed_among_incl; [|exact (Hl _ Hkv r' Hr')].
    intros x Hx. apply Hincl, in_or_app. now left.
Qed.

Lemma get_flat_tree_entry_listed package_map l : forall kv,
  get_flat_tree_entry package_map l = Return kv ->
  forall r, In r (snd kv :: records_of (snd kv)) ->
            keyed_among package_map (names_below l) r.
Proof.
  induction l as [name children IH] using listing_induction.
  intros kv H r Hr. pose proof (get_flat_tree_entry_keyed _ _ _ H) as Hkeyed.
  destruct name as [dep_full_name|]; [|discriminate].
  rewrite get_flat_tree_entry_eq in H.
  apply bind_Return_inv in H as (nm & Hnm & H).
  apply bind_Return_inv in H as (deps & Hdeps & H). injection H as <-.
  cbn [fst snd] in *. destruct Hr as [<-|Hr].
  - exists dep_full_name. split; [simpl; now left | exact Hkeyed].
  - change (In r (records_in deps)) in Hr.
    apply (get_flat_tree_from_listed package_map children IH
             (names_below (Listing (Some dep_full_name) children)) [] deps);
      [ | intros x [] | exact Hdeps | exact Hr].
    intros x Hx. simpl. now right.
Qed.

(** X20. Below the top level, the tree that [check] builds from a listing
    holds resolved packages only: every such node carries as name what
    [get_name] makes of the name of some record of the listing and as
    version what the version map holds for that same listing name, and
    that version is a non-empty string. *)
Theorem nodes_below_top_level_are_resolved
  trees package_json package_map flat_tree tree :
  get_flat_tree trees package_map = Return flat_tree ->
  get_dependency_tree flat_tree package_json package_map = Return tree ->
  forall top n,
    In top (node_children tree) ->
    In n (flat_map nodes_of (node_children top)) ->
    exists key,
      In key (flat_map names_below trees)
      /\ get_name key = Return (node_name n)
      /\ node_version n = pm_get package_map key
      /\ truthy (pm_get package_map key) = true.
Proof.
  intros Hflat Htree top n Htop Hn.
  destruct (nodes_among_records _ _ _ _ Htree top n Htop Hn) as (r & Hr & Hu & Hid).
  assert (Hlisted : keyed_among package_map (flat_map names_below trees) r).
  { apply (get_flat_tree_from_listed package_map trees) with (acc := [])
                                                             (flat_tree := flat_tree);
      [ | apply incl_refl | intros x [] | exact Hflat | exact Hr].
    apply Forall_forall. intros l _. apply get_flat_tree_entry_listed. }
  destruct Hlisted as (key & Hin & Hk).
  exists key. injection Hid as Hname Hver.
  destruct (usable_truthy r Hu) as [_ Htv].
  inversion Hk as [nm k d Hnm Hne Hwf Hd]; subst r.
  simpl in Hname, Hver, Htv. rewrite Hname, Hver. now repeat split.
Qed.

Lemma nodes_below_top_level_are_resolved_witness :
  exists key,
    In key (flat_map names_below
              [Listing (Some "a@1.2.0") [Listing (Some "b@2.0.0") []];
               Listing (Some "b@2.0.0") [Listing (Some "c@3.0.0") []]])
    /\ get_name key = Return (node_name (AnyNode "c" (Some "3.0.0") []))
    /\ node_version (AnyNode "c" (Some "3.0.0") [])
       = pm_get Scenario.chain_package_map key
    /\ truthy (pm_get Scenario.chain_package_map key) = true.
Proof.
  apply (nodes_below_top_level_are_resolved
           [Listing (Some "a@1.2.0") [Listing (Some "b@2.0.0") []];
            Listing (Some "b@2.0.0") [Listing (Some "c@3.0.0") []]]
           Scenario.chain_package_json Scenario.chain_package_map
           Scenario.chain_flat_tree _ eq_refl eq_refl
           (AnyNode "a" (Some "1.2.0")
              [AnyNode "b" (Some "2.0.0") [AnyNode "c" (Some "3.0.0") []]])).
  - simpl. now left.
  - simpl. right. now left.
Defined.

Lemma check_unfold package_json lock yarn_list :
  check package_json lock yarn_list
  = (flat_tree <- get_flat_tree (trees_of yarn_list) (parse_yarn_lock lock) ;;
     dep_tree <- get_dependency_tree flat_tree package_json (parse_yarn_lock lock) ;;
     Return (annotate [] dep_tree, [])).
Proof. reflexivity. Qed.

(** X21. [YarnRunner.check] returns exactly when every record of the
    listing, at every depth, has a name with an [@], and every dependency
    of the manifest has a top-level listing record whose name is the
    dependency's name, an [@], and what the lock data holds for the
    dependency's [name@range] (the text [None] when it holds nothing). *)
Theorem yarn_check_returns_iff package_json lock yarn_list :
  (exists result, check package_json lock yarn_list = Return result)
  <-> forallb all_named (trees_of yarn_list) = true
      /\ forall name range,
           In (name, range) (manifest package_json) ->
           In (Some (at_key name
                       (fmt (pm_get (parse_yarn_lock lock) (at_key name range)))))
              (map listing_name (trees_of yarn_list)).
Proof.
  rewrite check_unfold. split.
  - intros [result H].
    apply bind_Return_inv in H as (flat_tree & Hflat & H).
    apply bind_Return_inv in H as (dep_tree & Htree & _).
    split.
    + apply (get_flat_tree_from_returns_iff (parse_yarn_lock lock) _ []).
      now exists flat_tree.
    + intros name range Hin.
      destruct (get_dependency_tree_returns flat_tree package_json
                  (parse_yarn_lock lock)) as [Hto _].
      specialize (Hto (ex_intro _ dep_tree Htree) name range Hin).
      rewrite dict_get_None in Hto.
      destruct (get_flat_tree_from_keys _ _ _ _ Hflat
                  (at_key name (fmt (pm_get (parse_yarn_lock lock)
                                       (at_key name range))))) as [Hk _].
      destruct (in_dec string_dec
                  (at_key name (fmt (pm_get (parse_yarn_lock lock)
                                       (at_key name range))))
                  (keys flat_tree)) as [Hin'|Hnot]; [|contradiction].
      destruct (Hk Hin') as [[]|Hres]. exact Hres.
  - intros [Hnamed Hall].
    destruct (get_flat_tree_from_returns_iff (parse_yarn_lock lock)
                (trees_of yarn_list) []) as [_ Hback].
    destruct (Hback Hnamed) as [flat_tree Hflat].
    unfold get_flat_tree. rewrite Hflat. simpl.
    destruct (get_dependency_tree_returns flat_tree package_json
                (parse_yarn_lock lock)) as [_ Hfrom].
    destruct Hfrom as [dep_tree ->]; [|simpl; now eexists].
    intros name range Hin. rewrite dict_get_None. intros Hnot. apply Hnot.
    apply (get_flat_tree_from_keys _ _ _ _ Hflat). right. now apply Hall.
Qed.

Lemma yarn_check_returns_iff_witness :
  forallb all_named (trees_of Scenario.chain_listing) = true
  /\ forall name range,
       In (name, range) (manifest Scenario.chain_package_json) ->
       In (Some (at_key name
                   (fmt (pm_get (parse_yarn_lock Scenario.chain_lock)
                           (at_key name range)))))
          (map listing_name (trees_of Scenario.chain_listing)).
Proof.
  destruct (yarn_check_returns_iff Scenario.chain_package_json
              Scenario.chain_lock Scenario.chain_listing) as [H _].
  apply H. eexists. reflexivity.
Defined.

(** ** The returned tree, level by level *)




(** The relation leaves no choice: the records of a child-set and the
    parent fix the nodes attached below it. *)
Lemma attached_functional parent records kids :
  attached parent records kids ->
  forall kids', attached parent records kids' -> kids = kids'.
Proof.
  induction 1 as [parent
                 |parent r rs kids Hu _ IH
                 |parent r rs kids Hu Hg _ IH
                 |parent r rs kids Hu Hg Hnone _ IH
                 |parent r rs auth children kids Hu Hg Hauth _ IHc _ IH];
    intros kids' H'; inversion H'; subst;
    try reflexivity; try congruence; try contradiction;
    try (f_equal; now apply IH).
  match goal with
  | Ha : closest_full_record _ _ = Some auth,
    Hb : closest_full_record _ _ = Some ?auth' |- _ =>
      rewrite Ha in Hb; injection Hb as <-
  end.
  f_equal; [f_equal; now apply IHc | now apply IH].
Qed.





(** ** Records without a usable name or version *)

Example unchecked_scenario_tree :
  get_flat_tree Scenario.unchecked_listing Scenario.unchecked_package_map
  = Return Scenario.unchecked_flat_tree
  /\ get_dependency_tree Scenario.unchecked_flat_tree Scenario.chain_package_json
       Scenario.unchecked_package_map
     = Return (AnyNode "project" (Some "0.1.0") [AnyNode "a" None []]).
Proof. split; reflexivity. Qed.

Example borrowed_scenario_tree :
  get_flat_tree Scenario.borrowed_listing Scenario.borrowed_package_map
  = Return Scenario.borrowed_flat_tree
  /\ get_dependency_tree Scenario.borrowed_flat_tree Scenario.self_package_json
       Scenario.borrowed_package_map
     = Return (AnyNode "project" (Some "0.1.0")
                 [AnyNode "a" (Some "1.0.0")
                    [AnyNode "b" (Some "1.0.0") [AnyNode "c" (Some "1") []]]])
  /\ get_dependency_tree
       [("a@1.0.0",
         Flat (Some "a") (Some "1.0.0")
              ([] ++ [("b@^1", Scenario.leaf "b" "1.0.0")]))]
       Scenario.self_package_json Scenario.borrowed_package_map
     = Return (AnyNode "project" (Some "0.1.0")
                 [AnyNode "a" (Some "1.0.0") [AnyNode "b" (Some "1.0.0") []]]).
Proof. repeat split; reflexivity. Qed.

(** C8 fails as stated, twice over.  The record looked up for a dependency
    of the manifest is not checked: the top-level node [a] is emitted with
    the version [None] of its record.  And a record that gives no node is
    still found by [find_full_dependency]: [b@1.0.0], without a version,
    lends its child [c] to the node of [b@^1], so that the tree is not the
    one the flat tree gives without the record. *)
Lemma unusable_record_leaves_traces :
  ~ no_node_for_unusable_record /\ ~ branch_of_unusable_record_is_missing.
Proof.
  split; intros H.
  - specialize (H _ _ _ _ (proj2 unchecked_scenario_tree)). discriminate H.
  - specialize (H Scenario.self_package_json Scenario.borrowed_package_map
                  "a@1.0.0" (Some "a") (Some "1.0.0") [] "b@1.0.0"
                  Scenario.borrowed_unusable
                  [("b@^1", Scenario.leaf "b" "1.0.0")] [] eq_refl).
    destruct borrowed_scenario_tree as (_ & Hwith & Hwithout).
    unfold Scenario.borrowed_flat_tree in Hwith.
    rewrite Hwith, Hwithout in H. discriminate H.
Qed.

(** C8, amended.  A record of a child-set without a usable name or version
    gives no node and no error: [get_node_from_dependency] yields [None]
    for it and, below a parent whose recorded scopes are left as they are,
    the loop attaches what it attaches for the child-set without the
    record.  In a returned tree every node below the top-level nodes is
    made from a usable record of the flat tree and carries a usable name
    and version. *)
Theorem unusable_record_builds_no_node :
  (forall fuel n v d1 key r d2 parent,
     usable r = false ->
     get_node_from_dependency r parent = None
     /\ add_nested_dependencies fuel (Flat n v (d1 ++ (key, r) :: d2)) parent
        = add_nested_dependencies fuel (Flat n v (d1 ++ d2)) parent)
  /\ (forall flat_tree package_json package_map tree,
        get_dependency_tree flat_tree package_json package_map = Return tree ->
        forall top n,
          In top (node_children tree) ->
          In n (flat_map nodes_of (node_children top)) ->
          truthy (Some (node_name n)) = true
          /\ truthy (node_version n) = true
          /\ exists r,
               In r (records_in flat_tree) /\ usable r = true
               /\ node_id n = flat_id r).
Proof.
  split.
  - intros fuel n v d1 key r d2 parent Hr.
    destruct (unusable_record_is_skipped fuel n v d1 key r d2 parent Hr)
      as (Hnone & Hsame & _).
    now split.
  - intros flat_tree package_json package_map tree H top n Htop Hn.
    destruct (nodes_among_records _ _ _ _ H top n Htop Hn) as (r & Hr & Hu & Hid).
    destruct (usable_truthy r Hu) as [Htn Htv].
    pose proof Hid as Hid'. injection Hid' as Hname Hver.
    rewrite Hname, Hver. split; [exact Htn | split; [exact Htv|]].
    exists r. now repeat split.
Qed.

Lemma unusable_record_builds_no_node_witness :
  (get_node_from_dependency Scenario.borrowed_unusable Scenario.borrowed_a = None
   /\ add_nested_dependencies 3
        (Flat (Some "a") (Some "1.0.0")
              ([] ++ ("b@1.0.0", Scenario.borrowed_unusable)
                  :: [("b@^1", Scenario.leaf "b" "1.0.0")]))
        Scenario.borrowed_a
      = add_nested_dependencies 3
          (Flat (Some "a") (Some "1.0.0")
                ([] ++ [("b@^1", Scenario.leaf "b" "1.0.0")]))
          Scenario.borrowed_a)
  /\ (truthy (Some (node_name (AnyNode "c" (Some "1") []))) = true
      /\ truthy (node_version (AnyNode "c" (Some "1") [])) = true
      /\ exists r,
           In r (records_in Scenario.borrowed_flat_tree) /\ usable r = true
           /\ node_id (AnyNode "c" (Some "1") []) = flat_id r).
Proof.
  destruct unusable_record_builds_no_node as [Hloop Htree].
  split.
  - apply (Hloop 3 (Some "a") (Some "1.0.0") [] "b@1.0.0"
                 Scenario.borrowed_unusable
                 [("b@^1", Scenario.leaf "b" "1.0.0")] Scenario.borrowed_a).
    reflexivity.
  - apply (Htree Scenario.borrowed_flat_tree Scenario.self_package_json
                 Scenario.borrowed_package_map _
                 (proj1 (proj2 borrowed_scenario_tree))
                 (AnyNode "a" (Some "1.0.0")
                    [AnyNode "b" (Some "1.0.0") [AnyNode "c" (Some "1") []]])).
    + simpl. now left.
    + simpl. right. now left.
Defined.
